(** * The perpetual-futures ledger of [My_module::perp_core]

    A shallow embedding of the Move module [perp_core]
    (smart contract/sources/simple_wallet.move) and the properties of its
    funding accrual, margin calculator and position life cycle.

    Move integers are unsigned and checked: an addition, subtraction or
    multiplication whose result leaves the range of its type, a division by
    zero and a narrowing cast that does not fit all abort the transaction.
    An aborted transaction leaves the global storage as it was.  Integers
    are modelled as [Z] with the range check written out, entry functions as
    functions from the global storage to a [result]: either the storage
    after the call, or the abort. *)

From Stdlib Require Import ZArith Lia.
From stdpp Require Import gmap.

Open Scope Z_scope.

Module PerpCore.

(** ** Aborts *)

(** The categories of [std::error] used by the module. *)
Inductive category : Type :=
  | ALREADY_EXISTS
  | NOT_FOUND
  | PERMISSION_DENIED
  | INVALID_ARGUMENT
  | INVALID_STATE.

(** An abort is either raised by an [assert!] with a canonical error
    ([error::not_found(E_PAIR_NOT_FOUND)] is [Canonical NOT_FOUND 2]), or by
    the virtual machine itself: checked arithmetic, a global-storage
    instruction, or a native of [aptos_std::table]. *)
Inductive abort : Type :=
  | Canonical (c : category) (reason : Z)
  | ARITHMETIC_ERROR
  | RESOURCE_ERROR
  | TABLE_ERROR.

Inductive result (A : Type) : Type :=
  | Ok (a : A)
  | Abort (e : abort).
Arguments Ok {A} a.
Arguments Abort {A} e.

#[global] Instance result_ret : MRet result := @Ok.
#[global] Instance result_bind : MBind result :=
  λ A B f r, match r with Ok a => f a | Abort e => Abort e end.
#[global] Instance result_fmap : FMap result :=
  λ A B f r, match r with Ok a => Ok (f a) | Abort e => Abort e end.

Definition assert_ (b : bool) (e : abort) : result unit :=
  if b then Ok tt else Abort e.

Definition already_exists (r : Z) : abort := Canonical ALREADY_EXISTS r.
Definition not_found (r : Z) : abort := Canonical NOT_FOUND r.
Definition permission_denied (r : Z) : abort := Canonical PERMISSION_DENIED r.
Definition invalid_argument (r : Z) : abort := Canonical INVALID_ARGUMENT r.
Definition invalid_state (r : Z) : abort := Canonical INVALID_STATE r.

(** ** Errors *)
Definition E_PAIR_EXISTS : Z := 1.
Definition E_PAIR_NOT_FOUND : Z := 2.
Definition E_POS_EXISTS : Z := 3.
Definition E_POS_NOT_FOUND : Z := 4.
Definition E_BAD_SIDE : Z := 5.
Definition E_BAD_QTY : Z := 6.
Definition E_BAD_LEV : Z := 7.
Definition E_BAD_MARGIN : Z := 8.
Definition E_NOT_AUTH : Z := 9.
Definition E_UNSAFE : Z := 10.

(** ** Checked unsigned arithmetic *)
Definition MAX_U64 : Z := 2 ^ 64 - 1.
Definition MAX_U128 : Z := 2 ^ 128 - 1.

Definition in_u64 (x : Z) : Prop := 0 <= x <= MAX_U64.
Definition in_u128 (x : Z) : Prop := 0 <= x <= MAX_U128.

Definition checked (max x : Z) : result Z :=
  if (0 <=? x) && (x <=? max) then Ok x else Abort ARITHMETIC_ERROR.

Definition add64 (a b : Z) : result Z := checked MAX_U64 (a + b).
Definition sub64 (a b : Z) : result Z := checked MAX_U64 (a - b).
Definition mul64 (a b : Z) : result Z := checked MAX_U64 (a * b).
Definition div64 (a b : Z) : result Z :=
  if b =? 0 then Abort ARITHMETIC_ERROR else Ok (a / b).

Definition add128 (a b : Z) : result Z := checked MAX_U128 (a + b).
Definition sub128 (a b : Z) : result Z := checked MAX_U128 (a - b).
Definition mul128 (a b : Z) : result Z := checked MAX_U128 (a * b).
Definition div128 (a b : Z) : result Z :=
  if b =? 0 then Abort ARITHMETIC_ERROR else Ok (a / b).
Definition rem128 (a b : Z) : result Z :=
  if b =? 0 then Abort ARITHMETIC_ERROR else Ok (a mod b).

(** [(x as u64)] on a [u128]; the widening [(x as u128)] is the identity. *)
Definition as_u64 (x : Z) : result Z := checked MAX_U64 x.

(** ** Types *)
Abbreviation address := N (only parsing).

(** side: 0 = LONG, 1 = SHORT *)
Record Position : Type := {
  side : Z;
  size : Z;
  entry_px : Z;
  margin : Z;
  lev_bps : Z;
  funding_index_open : Z
}.

Record PairConfig : Type := {
  max_lev_bps : Z;
  init_margin_bps : Z;
  maint_margin_bps : Z;
  max_funding_bps_hour : Z
}.

Record Pair : Type := {
  pair_id : Z;
  cfg : PairConfig;
  mark_px : Z;
  cum_funding_bps : Z;
  last_funding_ts : Z;
  oracle : address;
  vrf_oracle : address;
  positions : gmap N Position
}.

(** Field assignments through a mutable borrow. *)
Definition set_mark_px (p : Pair) (v : Z) : Pair :=
  {| pair_id := pair_id p; cfg := cfg p; mark_px := v;
     cum_funding_bps := cum_funding_bps p;
     last_funding_ts := last_funding_ts p;
     oracle := oracle p; vrf_oracle := vrf_oracle p;
     positions := positions p |}.

Definition set_funding (p : Pair) (cum ts : Z) : Pair :=
  {| pair_id := pair_id p; cfg := cfg p; mark_px := mark_px p;
     cum_funding_bps := cum;
     last_funding_ts := ts;
     oracle := oracle p; vrf_oracle := vrf_oracle p;
     positions := positions p |}.

Definition set_positions (p : Pair) (t : gmap N Position) : Pair :=
  {| pair_id := pair_id p; cfg := cfg p; mark_px := mark_px p;
     cum_funding_bps := cum_funding_bps p;
     last_funding_ts := last_funding_ts p;
     oracle := oracle p; vrf_oracle := vrf_oracle p;
     positions := t |}.

Definition set_size_margin (pos : Position) (s m : Z) : Position :=
  {| side := side pos; size := s; entry_px := entry_px pos; margin := m;
     lev_bps := lev_bps pos; funding_index_open := funding_index_open pos |}.

(** ** Global storage and tables *)

(** The [Pair] resources of the chain, by the address that holds them. *)
Abbreviation Global := (gmap N Pair) (only parsing).

Definition exists_ (g : Global) (a : address) : bool :=
  bool_decide (is_Some (g !! a)).

Definition borrow_global (g : Global) (a : address) : result Pair :=
  match g !! a with
  | Some p => Ok p
  | None => Abort RESOURCE_ERROR
  end.

Definition move_to (g : Global) (a : address) (p : Pair) : result Global :=
  match g !! a with
  | Some _ => Abort RESOURCE_ERROR
  | None => Ok (<[a := p]> g)
  end.

Definition table_contains (t : gmap N Position) (k : address) : bool :=
  bool_decide (is_Some (t !! k)).

Definition table_add (t : gmap N Position) (k : address) (v : Position)
  : result (gmap N Position) :=
  match t !! k with
  | Some _ => Abort TABLE_ERROR
  | None => Ok (<[k := v]> t)
  end.

Definition table_borrow (t : gmap N Position) (k : address) : result Position :=
  match t !! k with
  | Some v => Ok v
  | None => Abort TABLE_ERROR
  end.

Definition table_remove (t : gmap N Position) (k : address)
  : result (gmap N Position) :=
  match t !! k with
  | Some _ => Ok (delete k t)
  | None => Abort TABLE_ERROR
  end.

(** ** Admin *)

Definition pair_object_address (admin : address) (pair_id : Z) : address :=
  admin.

Definition create_pair (g : Global) (admin : address)
    (pair_id max_lev_bps init_margin_bps maint_margin_bps
       max_funding_bps_hour : Z)
    (oracle vrf_oracle : address) (init_mark_px now_ts : Z) : result Global :=
  let a := admin in
  let key := pair_object_address a pair_id in
  assert_ (negb (exists_ g key)) (already_exists E_PAIR_EXISTS);;
  let cfg := {| max_lev_bps := max_lev_bps;
                init_margin_bps := init_margin_bps;
                maint_margin_bps := maint_margin_bps;
                max_funding_bps_hour := max_funding_bps_hour |} in
  move_to g admin
    {| pair_id := pair_id; cfg := cfg; mark_px := init_mark_px;
       cum_funding_bps := 0; last_funding_ts := now_ts;
       oracle := oracle; vrf_oracle := vrf_oracle;
       positions := ∅ |}.

(** ** Oracles *)

Definition set_mark_price (g : Global) (admin : address) (pair_id : Z)
    (caller : address) (new_px : Z) : result Global :=
  let pa := pair_object_address admin pair_id in
  assert_ (exists_ g pa) (not_found E_PAIR_NOT_FOUND);;
  book ← borrow_global g pa;
  assert_ (bool_decide (caller = oracle book)) (permission_denied E_NOT_AUTH);;
  Ok (<[pa := set_mark_px book new_px]> g).

Definition push_funding (g : Global) (admin : address) (pair_id : Z)
    (caller : address) (funding_bps vrf_seed_u128 now_ts : Z) : result Global :=
  let pa := pair_object_address admin pair_id in
  assert_ (exists_ g pa) (not_found E_PAIR_NOT_FOUND);;
  p ← borrow_global g pa;
  assert_ (bool_decide (caller = vrf_oracle p)) (permission_denied E_NOT_AUTH);;
  dt ← (if now_ts >? last_funding_ts p
        then sub64 now_ts (last_funding_ts p) else Ok 0);
  if dt =? 0 then Ok g else
  let cap := max_funding_bps_hour (cfg p) in
  twice ← mul64 cap 2;
  span ← add64 twice 1;
  m ← rem128 vrf_seed_u128 span;
  r ← as_u64 m;
  signed ← sub128 r cap;
  hours ← div64 dt 3600;
  if hours >? 0 then
    accrued ← mul128 signed hours;
    cum ← add128 (cum_funding_bps p) accrued;
    secs ← mul64 hours 3600;
    ts ← add64 (last_funding_ts p) secs;
    Ok (<[pa := set_funding p cum ts]> g)
  else Ok g.

(** ** Core math *)

Definition notional (px size : Z) : result Z := mul128 px size.

Definition required_init_margin (notional_q lev_bps init_bps : Z) : result Z :=
  by_lev ← div128 notional_q lev_bps;
  scaled ← mul128 notional_q init_bps;
  by_floor ← div128 scaled 10000;
  Ok (if by_lev >? by_floor then by_lev else by_floor).

Definition maint_margin (notional_q maint_bps : Z) : result Z :=
  scaled ← mul128 notional_q maint_bps;
  div128 scaled 10000.

Definition funding_pnl (px size side cum_now cum_open : Z) : result Z :=
  n ← notional px size;
  delta_bps_hours ← (if cum_now >? cum_open
                     then sub128 cum_now cum_open
                     else sub128 cum_open cum_now);
  scaled ← mul128 n delta_bps_hours;
  raw ← div128 scaled 10000;
  Ok raw.

Definition price_pnl (cur_px entry_px size side : Z) : result Z :=
  diff ← (if cur_px >? entry_px
          then sub128 cur_px entry_px
          else sub128 entry_px cur_px);
  move_q ← mul128 diff size;
  Ok move_q.

Definition health (p : Pair) (pos : Position) : result Z :=
  n ← notional (mark_px p) (size pos);
  mm ← maint_margin n (maint_margin_bps (cfg p));
  pp ← price_pnl (mark_px p) (entry_px pos) (size pos) (side pos);
  s1 ← add128 (margin pos) pp;
  fp ← funding_pnl (mark_px p) (size pos) (side pos)
         (cum_funding_bps p) (funding_index_open pos);
  s2 ← add128 s1 fp;
  h ← sub128 s2 mm;
  Ok h.

(** ** Trading *)

(** Open a single net position per user per pair.  The argument
    [entry_px] is not read: the stored entry price is the mark price. *)
Definition open_position (g : Global) (admin user : address)
    (pair_id size side lev_bps margin entry_px : Z) : result Global :=
  assert_ (side <? 2) (invalid_argument E_BAD_SIDE);;
  assert_ (size >? 0) (invalid_argument E_BAD_QTY);;
  let ua := user in
  let pa := pair_object_address admin pair_id in
  assert_ (exists_ g pa) (not_found E_PAIR_NOT_FOUND);;
  pair ← borrow_global g pa;
  assert_ ((lev_bps >? 0) && (lev_bps <=? max_lev_bps (cfg pair)))
    (invalid_argument E_BAD_LEV);;
  assert_ (negb (table_contains (positions pair) ua))
    (already_exists E_POS_EXISTS);;
  n ← notional (mark_px pair) size;
  req ← required_init_margin n lev_bps (init_margin_bps (cfg pair));
  assert_ (margin >=? req) (invalid_argument E_BAD_MARGIN);;
  t ← table_add (positions pair) ua
        {| side := side; size := size; entry_px := mark_px pair;
           margin := margin; lev_bps := lev_bps;
           funding_index_open := cum_funding_bps pair |};
  Ok (<[pa := set_positions pair t]> g).

(** Close full (or partial) position at the current mark price.  The Move
    function returns nothing; the second component of the result is the
    local [equity_released] that the function has computed where the vault
    hook is to be called. *)
Definition close_position (g : Global) (admin user : address)
    (pair_id size_to_close : Z) : result (Global * Z) :=
  let ua := user in
  let pa := pair_object_address admin pair_id in
  assert_ (exists_ g pa) (not_found E_PAIR_NOT_FOUND);;
  pair ← borrow_global g pa;
  assert_ (table_contains (positions pair) ua) (not_found E_POS_NOT_FOUND);;
  assert_ (size_to_close >? 0) (invalid_argument E_BAD_QTY);;
  pos ← table_borrow (positions pair) ua;
  assert_ (size pos >=? size_to_close) (invalid_argument E_BAD_QTY);;
  scaled ← mul128 (margin pos) size_to_close;
  share ← div128 scaled (size pos);
  margin_share ← as_u64 share;
  let price := mark_px pair in
  pnl_price ← price_pnl price (entry_px pos) size_to_close (side pos);
  pnl_funding ← funding_pnl price size_to_close (side pos)
                  (cum_funding_bps pair) (funding_index_open pos);
  pnl_total ← add128 pnl_price pnl_funding;
  equity_released ← add128 margin_share pnl_total;
  assert_ (equity_released >=? 0) (invalid_state E_UNSAFE);;
  new_size ← sub64 (size pos) size_to_close;
  new_margin ← sub64 (margin pos) margin_share;
  let t := <[ua := set_size_margin pos new_size new_margin]> (positions pair) in
  t' ← (if new_size =? 0 then table_remove t ua else Ok t);
  Ok (<[pa := set_positions pair t']> g, equity_released).

(** Anyone can trigger liquidation if account health < 0. *)
Definition liquidate (g : Global) (admin victim : address) (pair_id : Z)
  : result Global :=
  let pa := pair_object_address admin pair_id in
  assert_ (exists_ g pa) (not_found E_PAIR_NOT_FOUND);;
  pair ← borrow_global g pa;
  assert_ (table_contains (positions pair) victim)
    (not_found E_POS_NOT_FOUND);;
  pos_ref ← table_borrow (positions pair) victim;
  h ← health pair pos_ref;
  assert_ (h <? 0) (invalid_state E_UNSAFE);;
  let side := side pos_ref in
  let size := size pos_ref in
  let margin := margin pos_ref in
  pnl_price ← price_pnl (mark_px pair) (entry_px pos_ref) size side;
  pnl_funding ← funding_pnl (mark_px pair) size side
                  (cum_funding_bps pair) (funding_index_open pos_ref);
  s1 ← add128 margin pnl_price;
  equity ← add128 s1 pnl_funding;
  t ← table_remove (positions pair) victim;
  Ok (<[pa := set_positions pair t]> g).

(** ** Views *)

Definition get_mark_px (g : Global) (admin_addr : address) (pair_id : Z)
  : result Z :=
  let pa := pair_object_address admin_addr pair_id in
  assert_ (exists_ g pa) (not_found E_PAIR_NOT_FOUND);;
  p ← borrow_global g pa;
  Ok (mark_px p).

Definition get_cum_funding_bps (g : Global) (admin_addr : address)
    (pair_id : Z) : result Z :=
  let pa := pair_object_address admin_addr pair_id in
  assert_ (exists_ g pa) (not_found E_PAIR_NOT_FOUND);;
  p ← borrow_global g pa;
  Ok (cum_funding_bps p).

Definition get_position (g : Global) (admin_addr : address) (pair_id : Z)
    (owner : address) : result (option Position) :=
  let pa := pair_object_address admin_addr pair_id in
  assert_ (exists_ g pa) (not_found E_PAIR_NOT_FOUND);;
  p ← borrow_global g pa;
  if negb (table_contains (positions p) owner) then Ok None
  else
    pos_ref ← table_borrow (positions p) owner;
    Ok (Some pos_ref).

(** ** Transactions *)

(** The storage after a transaction: an abort rolls everything back. *)
Definition commit (g : Global) (r : result Global) : Global :=
  match r with
  | Ok g' => g'
  | Abort _ => g
  end.

(** The entry functions of the module, with the arguments of one call. *)
Inductive call : Type :=
  | CreatePair (admin : address)
      (pair_id max_lev_bps init_margin_bps maint_margin_bps
         max_funding_bps_hour : Z)
      (oracle vrf_oracle : address) (init_mark_px now_ts : Z)
  | SetMarkPrice (admin : address) (pair_id : Z) (caller : address) (new_px : Z)
  | PushFunding (admin : address) (pair_id : Z) (caller : address)
      (funding_bps vrf_seed_u128 now_ts : Z)
  | OpenPosition (admin user : address)
      (pair_id size side lev_bps margin entry_px : Z)
  | ClosePosition (admin user : address) (pair_id size_to_close : Z)
  | Liquidate (admin victim : address) (pair_id : Z).

Definition exec (g : Global) (c : call) : result Global :=
  match c with
  | CreatePair a id ml im mm mf o v px ts =>
      create_pair g a id ml im mm mf o v px ts
  | SetMarkPrice a id c px => set_mark_price g a id c px
  | PushFunding a id c fb seed ts => push_funding g a id c fb seed ts
  | OpenPosition a u id sz sd lev m px => open_position g a u id sz sd lev m px
  | ClosePosition a u id sz => fst <$> close_position g a u id sz
  | Liquidate a v id => liquidate g a v id
  end.

(** A sequence of transactions, from the oldest. *)
Fixpoint run (g : Global) (cs : list call) : Global :=
  match cs with
  | [] => g
  | c :: cs' => run (commit g (exec g c)) cs'
  end.

(** ** Notions used by the properties *)

(** A computation whose only way to abort is an arithmetic error. *)
Definition arith_only {A : Type} (r : result A) : Prop :=
  ∀ e, r = Abort e → e = ARITHMETIC_ERROR.

(** The health of the docstring of [health], as an integer:
    margin + price_pnl + funding_pnl - maint_margin, without range checks. *)
Definition signed_health (p : Pair) (pos : Position) : Z :=
  margin pos
  + Z.abs (mark_px p - entry_px pos) * size pos
  + mark_px p * size pos
    * Z.abs (cum_funding_bps p - funding_index_open pos) / 10000
  - mark_px p * size pos * maint_margin_bps (cfg p) / 10000.

(** The funding rate of the docstring of [push_funding], as an integer in
    [-cap, +cap]. *)
Definition signed_rate (seed cap : Z) : Z := seed mod (2 * cap + 1) - cap.

(** ** Sample ledgers *)

(** A market held by address 1 (pair 7): 50x maximal leverage, initial and
    maintenance margin both 200%, funding cap 50 bps per hour, price oracle
    2, funding oracle 3, mark price 100, created at time 0. *)
Definition market0 : Global :=
  run ∅ [CreatePair 1%N 7 5000 20000 20000 50 2%N 3%N 100 0].

(** Account 9 opens a long of size 1 with margin 200 (the required initial
    margin at mark price 100). *)
Definition opened0 : Global :=
  run market0 [OpenPosition 1%N 9%N 7 1 0 5000 200 0].

(** The price oracle moves the mark price to 300: the maintenance margin is
    now 600, margin plus PnL is 400. *)
Definition underwater : Global :=
  run opened0 [SetMarkPrice 1%N 7 2%N 300].

(** The pair of [market0] and the position of [opened0], written out. *)
Definition pair0 : Pair :=
  {| pair_id := 7;
     cfg := {| max_lev_bps := 5000; init_margin_bps := 20000;
               maint_margin_bps := 20000; max_funding_bps_hour := 50 |};
     mark_px := 100; cum_funding_bps := 0; last_funding_ts := 0;
     oracle := 2%N; vrf_oracle := 3%N; positions := ∅ |}.

Definition position0 : Position :=
  {| side := 0; size := 1; entry_px := 100; margin := 200;
     lev_bps := 5000; funding_index_open := 0 |}.

(** A market without margin floors, where account 9 holds a long of size 3
    with margin 7. *)
Definition thirds : Global :=
  run ∅ [CreatePair 1%N 7 5000 0 0 50 2%N 3%N 100 0;
         OpenPosition 1%N 9%N 7 3 0 5000 7 0].

(** The pair and the position of [thirds], written out. *)
Definition thirds_position : Position :=
  {| side := 0; size := 3; entry_px := 100; margin := 7;
     lev_bps := 5000; funding_index_open := 0 |}.

Definition thirds_pair : Pair :=
  {| pair_id := 7;
     cfg := {| max_lev_bps := 5000; init_margin_bps := 0;
               maint_margin_bps := 0; max_funding_bps_hour := 50 |};
     mark_px := 100; cum_funding_bps := 0; last_funding_ts := 0;
     oracle := 2%N; vrf_oracle := 3%N;
     positions := {[ 9%N := thirds_position ]} |}.

(** ** Typed values *)


(** The positions after a close of [stc] units with margin share [share]. *)
Definition closed_positions (t : gmap N Position) (user : N) (pos : Position)
    (stc share : Z) : gmap N Position :=
  if size pos - stc =? 0 then delete user t
  else <[user := set_size_margin pos (size pos - stc) (margin pos - share)]> t.

(** ** The funding index along an execution *)

(** How the funding index of the pair at one address may differ between an
    earlier and a later storage. *)
Definition cum_grows (o o' : option Pair) : Prop :=
  match o, o' with
  | Some p, Some p' => cum_funding_bps p <= cum_funding_bps p'
  | None, Some p' => 0 <= cum_funding_bps p'
  | Some _, None => False
  | None, None => True
  end.

(** ** Invariants of the ledger *)

(** What every stored position satisfies: a positive size, a side that is
    long or short, a margin that is not negative and a leverage within the
    bound of its market. *)
Definition position_ok (p : Pair) (pos : Position) : Prop :=
  0 < size pos ∧ side pos < 2 ∧ 0 <= margin pos
  ∧ 0 < lev_bps pos <= max_lev_bps (cfg p).

Definition ledger_ok (g : Global) : Prop :=
  ∀ a p u pos,
    g !! a = Some p → positions p !! u = Some pos → position_ok p pos.

(** Two states of one market: the identifier, the configuration and the
    two oracle addresses agree. *)
Definition same_market (p p' : Pair) : Prop :=
  pair_id p' = pair_id p ∧ cfg p' = cfg p
  ∧ oracle p' = oracle p ∧ vrf_oracle p' = vrf_oracle p.

(** The calls that trade: they are not made by an oracle. *)
Definition is_trade (c : call) : bool :=
  match c with
  | OpenPosition _ _ _ _ _ _ _ _ | ClosePosition _ _ _ _ | Liquidate _ _ _ =>
      true
  | _ => false
  end.

(** The position that [open_position] stores. *)
Definition opened (p : Pair) (size side lev_bps margin : Z) : Position :=
  {| side := side; size := size; entry_px := mark_px p; margin := margin;
     lev_bps := lev_bps; funding_index_open := cum_funding_bps p |}.

(** What one returning call [c] may have done to a market that existed
    before it. *)
Definition market_step (c : call) (p p' : Pair) : Prop :=
  same_market p p'
  ∧ last_funding_ts p <= last_funding_ts p'
  ∧ (is_trade c = true →
     mark_px p' = mark_px p ∧ cum_funding_bps p' = cum_funding_bps p
     ∧ last_funding_ts p' = last_funding_ts p)
  ∧ (is_trade c = false → positions p' = positions p).

End PerpCore.

(** * The trade log of [My_module::ai_bridge]

    The second module of the same source file.  Its asserts abort with the
    bare error constant; the two resources [Bridge] and [TradeLog] are kept
    in the global storage by the address that holds them. *)

Module AiBridge.

Inductive abort : Type :=
  | Code (c : Z)
  | MISSING_RESOURCE
  | RESOURCE_EXISTS.

Inductive result (A : Type) : Type :=
  | Ok (a : A)
  | Abort (e : abort).
Arguments Ok {A} a.
Arguments Abort {A} e.

#[global] Instance bridge_result_ret : MRet result := @Ok.
#[global] Instance bridge_result_bind : MBind result :=
  λ A B f r, match r with Ok a => f a | Abort e => Abort e end.

Definition assert_ (b : bool) (code : Z) : result unit :=
  if b then Ok tt else Abort (Code code).

(** ** Errors *)
Definition E_NOT_ADMIN : Z := 1.
Definition E_INVALID_MARGIN : Z := 2.
Definition E_INVALID_LEVERAGE : Z := 3.
Definition E_INVALID_PAIR : Z := 4.

(** ** Types *)

(** AI trade instruction; [pair] holds the bytes of the name. *)
Record TradeInstruction : Type := {
  user : N;
  pair : list Z;
  side : bool;
  leverage : Z;
  margin : Z;
  timestamp : Z
}.

Record TradeLog : Type := {
  trades : list TradeInstruction
}.

Record Bridge : Type := {
  admin : N;
  max_leverage : Z;
  min_margin : Z
}.

(** The [Bridge] and [TradeLog] resources of the chain. *)
Record Storage : Type := {
  bridges : gmap N Bridge;
  logs : gmap N TradeLog
}.

Definition empty_storage : Storage := {| bridges := ∅; logs := ∅ |}.

(** ** Entry functions *)

Definition init (s : Storage) (admin_signer : N) (max_leverage min_margin : Z)
  : result Storage :=
  let b := {| admin := admin_signer; max_leverage := max_leverage;
              min_margin := min_margin |} in
  s1 ← match bridges s !! admin_signer with
       | Some _ => Abort RESOURCE_EXISTS
       | None => Ok {| bridges := <[admin_signer := b]> (bridges s);
                       logs := logs s |}
       end;
  let log := {| trades := [] |} in
  match logs s1 !! admin_signer with
  | Some _ => Abort RESOURCE_EXISTS
  | None => Ok {| bridges := bridges s1;
                  logs := <[admin_signer := log]> (logs s1) |}
  end.

Definition set_params (s : Storage) (admin_signer : N)
    (max_leverage min_margin : Z) : result Storage :=
  b ← match bridges s !! admin_signer with
      | Some b => Ok b
      | None => Abort MISSING_RESOURCE
      end;
  assert_ (bool_decide (admin_signer = admin b)) E_NOT_ADMIN;;
  Ok {| bridges := <[admin_signer :=
                      {| admin := admin b; max_leverage := max_leverage;
                         min_margin := min_margin |}]> (bridges s);
        logs := logs s |}.

Definition submit_ai_trade (s : Storage) (user_signer : N) (pair : list Z)
    (side : bool) (leverage margin timestamp : Z) : result Storage :=
  let addr := user_signer in
  b ← match bridges s !! addr with
      | Some b => Ok b
      | None => Abort MISSING_RESOURCE
      end;
  assert_ (margin >=? min_margin b) E_INVALID_MARGIN;;
  assert_ (leverage <=? max_leverage b) E_INVALID_LEVERAGE;;
  assert_ (Z.of_nat (length pair) >? 0) E_INVALID_PAIR;;
  let trade := {| user := addr; pair := pair; side := side;
                  leverage := leverage; margin := margin;
                  timestamp := timestamp |} in
  log ← match logs s !! addr with
        | Some l => Ok l
        | None => Abort MISSING_RESOURCE
        end;
  Ok {| bridges := bridges s;
        logs := <[addr := {| trades := trades log ++ [trade] |}]> (logs s) |}.

Definition get_trades (s : Storage) (addr : N) : result (list TradeInstruction) :=
  match logs s !! addr with
  | Some log => Ok (trades log)
  | None => Abort MISSING_RESOURCE
  end.

(** ** Transactions *)

Inductive call : Type :=
  | Init (admin_signer : N) (max_leverage min_margin : Z)
  | SetParams (admin_signer : N) (max_leverage min_margin : Z)
  | SubmitAiTrade (user_signer : N) (pair : list Z) (side : bool)
      (leverage margin timestamp : Z).

Definition exec (s : Storage) (c : call) : result Storage :=
  match c with
  | Init a ml mm => init s a ml mm
  | SetParams a ml mm => set_params s a ml mm
  | SubmitAiTrade u p sd lev m ts => submit_ai_trade s u p sd lev m ts
  end.

Definition commit (s : Storage) (r : result Storage) : Storage :=
  match r with
  | Ok s' => s'
  | Abort _ => s
  end.

Fixpoint run (s : Storage) (cs : list call) : Storage :=
  match cs with
  | [] => s
  | c :: cs' => run (commit s (exec s c)) cs'
  end.

(** ** Invariant *)

(** A bridge and a log come together, and a bridge names its holder. *)
Definition storage_ok (s : Storage) : Prop :=
  ∀ a, (is_Some (bridges s !! a) ↔ is_Some (logs s !! a))
       ∧ (∀ b, bridges s !! a = Some b → admin b = a).

(** The trades logged at an address, none where there is no log. *)
Definition logged (s : Storage) (a : N) : list TradeInstruction :=
  match logs s !! a with
  | Some log => trades log
  | None => []
  end.

End AiBridge.

Import PerpCore.

(** * Reasoning about aborts and checked arithmetic *)

Section ResultLemmas.
Context {A B : Type}.
Implicit Types (m : result A) (f : A → result B).

Lemma bind_ok m f b :
  m ≫= f = Ok b → ∃ a, m = Ok a ∧ f a = Ok b.
Proof. destruct m as [a|e]; simpl; [eauto | discriminate]. Qed.

Lemma bind_abort m f e :
  m ≫= f = Abort e → m = Abort e ∨ ∃ a, m = Ok a ∧ f a = Abort e.
Proof. destruct m as [a|e']; simpl; [eauto | intros [= ->]; auto]. Qed.

Lemma bind_eq_ok m f a : m = Ok a → m ≫= f = f a.
Proof. intros ->. reflexivity. Qed.

Lemma bind_eq_abort m f e : m = Abort e → m ≫= f = Abort e.
Proof. intros ->. reflexivity. Qed.
End ResultLemmas.

Lemma arith_only_ok {A : Type} (a : A) : arith_only (Ok a).
Proof. intros e [=]. Qed.

Lemma arith_only_abort {A : Type} : arith_only (@Abort A ARITHMETIC_ERROR).
Proof. by intros e [= <-]. Qed.

Lemma arith_only_bind {A B : Type} (m : result A) (f : A → result B) :
  arith_only m → (∀ a, arith_only (f a)) → arith_only (m ≫= f).
Proof.
  intros Hm Hf e He. apply bind_abort in He as [He | (a & _ & He)].
  - by apply Hm.
  - by apply (Hf a).
Qed.

Lemma arith_only_if {A : Type} (b : bool) (r1 r2 : result A) :
  arith_only r1 → arith_only r2 → arith_only (if b then r1 else r2).
Proof. by destruct b. Qed.

Lemma checked_ok max x v :
  checked max x = Ok v ↔ v = x ∧ 0 <= x <= max.
Proof.
  unfold checked.
  destruct (Z.leb_spec 0 x), (Z.leb_spec x max); simpl;
    split; try (intros [= <-]); try (intros [-> ?]); try done; lia.
Qed.

Lemma checked_in max x : 0 <= x <= max → checked max x = Ok x.
Proof. intros. by apply checked_ok. Qed.

Lemma checked_out max x : x < 0 ∨ max < x → checked max x = Abort ARITHMETIC_ERROR.
Proof.
  intros Hx. unfold checked.
  destruct (Z.leb_spec 0 x), (Z.leb_spec x max); simpl; try done; lia.
Qed.

Lemma arith_only_checked max x : arith_only (checked max x).
Proof.
  intros e. unfold checked. destruct (_ && _); [discriminate | by intros [= <-]].
Qed.

Lemma arith_only_div128 a b : arith_only (div128 a b).
Proof.
  intros e. unfold div128. destruct (b =? 0); [by intros [= <-] | discriminate].
Qed.

Lemma div128_ok a b : b ≠ 0 → div128 a b = Ok (a / b).
Proof. intros Hb. unfold div128. by destruct (Z.eqb_spec b 0). Qed.

Lemma div128_inv a b v : div128 a b = Ok v → v = a / b ∧ b ≠ 0.
Proof. unfold div128. destruct (Z.eqb_spec b 0); [discriminate | by intros [= <-]]. Qed.

(** The absolute difference, as both branches of the source compute it. *)
Lemma abs_diff_ok a b v :
  (if a >? b then sub128 a b else sub128 b a) = Ok v →
  v = Z.abs (a - b) ∧ 0 <= v <= MAX_U128.
Proof.
  unfold sub128. destruct (Z.gtb_spec a b); intros [-> ?]%checked_ok; lia.
Qed.

Lemma abs_diff_in a b :
  Z.abs (a - b) <= MAX_U128 →
  (if a >? b then sub128 a b else sub128 b a) = Ok (Z.abs (a - b)).
Proof.
  intros Hr. unfold sub128.
  destruct (Z.gtb_spec a b); apply checked_ok; lia.
Qed.

Lemma arith_only_abs_diff a b :
  arith_only (if a >? b then sub128 a b else sub128 b a).
Proof. apply arith_only_if; apply arith_only_checked. Qed.

#[local] Hint Resolve arith_only_ok arith_only_abort arith_only_checked arith_only_div128
  arith_only_abs_diff : arith.

Ltac arith_only_tac :=
  repeat first
    [ solve [eauto with arith]
    | apply arith_only_bind; [| intros ?]
    | apply arith_only_if ].

(** * The margin and health calculator *)

Lemma price_pnl_inv cur entry sz sd v :
  price_pnl cur entry sz sd = Ok v →
  v = Z.abs (cur - entry) * sz ∧ 0 <= v <= MAX_U128.
Proof.
  unfold price_pnl. intros (d & Hd & H)%bind_ok.
  apply bind_ok in H as (q & Hq & [= <-]).
  apply abs_diff_ok in Hd as [-> _].
  apply checked_ok in Hq as [-> ?]. done.
Qed.

Lemma price_pnl_in cur entry sz sd :
  Z.abs (cur - entry) <= MAX_U128 →
  0 <= Z.abs (cur - entry) * sz <= MAX_U128 →
  price_pnl cur entry sz sd = Ok (Z.abs (cur - entry) * sz).
Proof.
  intros Hd Hq. unfold price_pnl.
  rewrite (bind_eq_ok _ _ _ (abs_diff_in _ _ Hd)).
  unfold mul128. by rewrite checked_in.
Qed.

Lemma funding_pnl_inv px sz sd cum_now cum_open v :
  funding_pnl px sz sd cum_now cum_open = Ok v →
  v = px * sz * Z.abs (cum_now - cum_open) / 10000 ∧ 0 <= v <= MAX_U128
  ∧ 0 <= px * sz <= MAX_U128.
Proof.
  unfold funding_pnl, notional, mul128.
  intros (n & Hn & H)%bind_ok.
  apply bind_ok in H as (d & Hd & H).
  apply bind_ok in H as (t & Ht & H).
  apply bind_ok in H as (raw & Hraw & [= <-]).
  apply checked_ok in Hn as [-> ?].
  apply abs_diff_ok in Hd as [-> _].
  apply checked_ok in Ht as [-> ?].
  apply div128_inv in Hraw as [-> _].
  split; [done|]. split; [|done]. split.
  - apply Z.div_pos; lia.
  - assert (px * sz * Z.abs (cum_now - cum_open) / 10000
            <= px * sz * Z.abs (cum_now - cum_open)); [|lia].
    apply Z.div_le_upper_bound; lia.
Qed.

Lemma funding_pnl_in px sz sd cum_now cum_open :
  0 <= px * sz <= MAX_U128 →
  Z.abs (cum_now - cum_open) <= MAX_U128 →
  px * sz * Z.abs (cum_now - cum_open) <= MAX_U128 →
  funding_pnl px sz sd cum_now cum_open
  = Ok (px * sz * Z.abs (cum_now - cum_open) / 10000).
Proof.
  intros Hn Hd Ht. unfold funding_pnl, notional, mul128.
  rewrite checked_in by done. simpl.
  rewrite (bind_eq_ok _ _ _ (abs_diff_in _ _ Hd)).
  rewrite checked_in by (split; [apply Z.mul_nonneg_nonneg; lia | done]).
  reflexivity.
Qed.

Lemma maint_margin_inv n bps v :
  maint_margin n bps = Ok v → v = n * bps / 10000 ∧ 0 <= n * bps <= MAX_U128.
Proof.
  unfold maint_margin, mul128. intros (t & Ht & Hv)%bind_ok.
  apply checked_ok in Ht as [-> ?]. by apply div128_inv in Hv as [-> _].
Qed.

Lemma health_arith_only p pos : arith_only (health p pos).
Proof.
  unfold health, notional, maint_margin, price_pnl, funding_pnl, notional,
    mul128, add128, sub128.
  arith_only_tac.
Qed.

Lemma health_inv p pos h :
  health p pos = Ok h → h = signed_health p pos ∧ 0 <= h <= MAX_U128.
Proof.
  unfold health, notional, mul128, add128, sub128, signed_health.
  intros (n & Hn & H)%bind_ok.
  apply bind_ok in H as (mm & Hmm & H).
  apply bind_ok in H as (pp & Hpp & H).
  apply bind_ok in H as (s1 & Hs1 & H).
  apply bind_ok in H as (fp & Hfp & H).
  apply bind_ok in H as (s2 & Hs2 & H).
  apply bind_ok in H as (h' & Hh & [= <-]).
  apply checked_ok in Hn as [-> _].
  apply maint_margin_inv in Hmm as [-> _].
  apply price_pnl_inv in Hpp as [-> _].
  apply checked_ok in Hs1 as [-> _].
  apply funding_pnl_inv in Hfp as (-> & _ & _).
  apply checked_ok in Hs2 as [-> _].
  apply checked_ok in Hh as [-> ?]. done.
Qed.

Lemma health_underflow p pos :
  signed_health p pos < 0 → health p pos = Abort ARITHMETIC_ERROR.
Proof.
  intros Hneg. destruct (health p pos) as [h|e] eqn:Hh.
  - apply health_inv in Hh as [-> ?]. lia.
  - by rewrite (health_arith_only p pos e Hh).
Qed.

(** * Global storage and tables *)

Lemma exists_Some (g : gmap N Pair) a p : g !! a = Some p → exists_ g a = true.
Proof. intros H. unfold exists_. apply bool_decide_eq_true. by exists p. Qed.

Lemma exists_None (g : gmap N Pair) a : g !! a = None → exists_ g a = false.
Proof.
  intros H. unfold exists_. apply bool_decide_eq_false.
  rewrite H. by intros [? ?].
Qed.

Lemma table_contains_Some (t : gmap N Position) k v :
  t !! k = Some v → table_contains t k = true.
Proof. intros H. unfold table_contains. apply bool_decide_eq_true. by exists v. Qed.

Lemma table_contains_None (t : gmap N Position) k :
  t !! k = None → table_contains t k = false.
Proof.
  intros H. unfold table_contains. apply bool_decide_eq_false.
  rewrite H. by intros [? ?].
Qed.

(** * Liquidation *)

(** Every way a call of [liquidate] can end. *)
Lemma liquidate_cases (g : gmap N Pair) admin victim pid :
  match g !! admin with
  | None => liquidate g admin victim pid = Abort (not_found E_PAIR_NOT_FOUND)
  | Some p =>
      match positions p !! victim with
      | None =>
          liquidate g admin victim pid = Abort (not_found E_POS_NOT_FOUND)
      | Some pos =>
          match health p pos with
          | Abort _ => liquidate g admin victim pid = Abort ARITHMETIC_ERROR
          | Ok _ =>
              liquidate g admin victim pid = Abort (invalid_state E_UNSAFE)
          end
      end
  end.
Proof.
  unfold liquidate, pair_object_address, borrow_global, table_borrow.
  destruct (g !! admin) as [p|] eqn:Hp.
  - rewrite (exists_Some _ _ _ Hp). simpl.
    destruct (positions p !! victim) as [pos|] eqn:Hpos.
    + rewrite (table_contains_Some _ _ _ Hpos). simpl.
      destruct (health p pos) as [h|e] eqn:Hh; simpl.
      * apply health_inv in Hh as [_ ?].
        destruct (Z.ltb_spec h 0); [lia | done].
      * by rewrite (health_arith_only p pos e Hh).
    + by rewrite (table_contains_None _ _ Hpos).
  - by rewrite (exists_None _ _ Hp).
Qed.

(** C9. [health] is computed in unsigned 128-bit arithmetic.  Whenever
    margin + pricePnL + fundingPnL is below the maintenance margin the call
    of [liquidate] aborts with an arithmetic error (not a typed failure);
    whenever [health] returns, its value is at least 0, so the test
    [h < 0] is false and the call fails with InvalidState.  Hence every call
    of [liquidate] aborts and no position is ever removed by it. *)
Theorem liquidate_never_removes (g : gmap N Pair) admin victim pid :
  (∃ e, liquidate g admin victim pid = Abort e)
  ∧ commit g (liquidate g admin victim pid) = g
  ∧ ∀ p pos, g !! admin = Some p → positions p !! victim = Some pos →
      (margin pos
       + Z.abs (mark_px p - entry_px pos) * size pos
       + mark_px p * size pos
         * Z.abs (cum_funding_bps p - funding_index_open pos) / 10000
       < mark_px p * size pos * maint_margin_bps (cfg p) / 10000 →
       liquidate g admin victim pid = Abort ARITHMETIC_ERROR)
      ∧ (∀ h, health p pos = Ok h →
           0 <= h ∧ (h <? 0) = false
           ∧ liquidate g admin victim pid = Abort (invalid_state E_UNSAFE)).
Proof.
  pose proof (liquidate_cases g admin victim pid) as Hc.
  assert (Hab : ∃ e, liquidate g admin victim pid = Abort e).
  { destruct (g !! admin) as [p|]; [|eauto].
    destruct (positions p !! victim) as [pos|]; [|eauto].
    destruct (health p pos); eauto. }
  split; [done|]. split.
  { destruct Hab as [e ->]. done. }
  intros p pos Hp Hpos. rewrite Hp, Hpos in Hc. split.
  - intros Hlt. rewrite health_underflow in Hc; [done|].
    unfold signed_health. lia.
  - intros h Hh. rewrite Hh in Hc. apply health_inv in Hh as [_ ?].
    split; [lia|]. split; [|done]. apply Z.ltb_ge. lia.
Qed.

Lemma liquidate_never_removes_witness :
  liquidate underwater 1%N 9%N 7 = Abort ARITHMETIC_ERROR
  ∧ liquidate opened0 1%N 9%N 7 = Abort (invalid_state E_UNSAFE).
Proof.
  split.
  - destruct (liquidate_never_removes underwater 1%N 9%N 7) as (_ & _ & H).
    refine (proj1 (H (set_positions (set_mark_px pair0 300)
                        {[ 9%N := position0 ]}) position0 _ _) _);
      by vm_compute.
  - destruct (liquidate_never_removes opened0 1%N 9%N 7) as (_ & _ & H).
    refine (proj2 (proj2 (proj2 (H (set_positions pair0 {[ 9%N := position0 ]})
                                   position0 _ _) 0 _)));
      by vm_compute.
Defined.

(** C1 (the code at the failing input).  On the ledger [underwater] the
    position of account 9 has margin 200, price PnL 200, funding PnL 0 and
    maintenance margin 600, so its health is 400 - 600 = -200 < 0; the call
    of [liquidate] aborts with an arithmetic error and the position stays. *)
Theorem liquidate_underwater_aborts :
  ∃ p pos,
    underwater !! 1%N = Some p
    ∧ positions p !! 9%N = Some pos
    ∧ signed_health p pos = -200
    ∧ liquidate underwater 1%N 9%N 7 = Abort ARITHMETIC_ERROR
    ∧ commit underwater (liquidate underwater 1%N 9%N 7) !! 1%N = Some p.
Proof.
  eexists _, _. repeat split; vm_compute; reflexivity.
Qed.

(** * Ranges *)

Lemma u64_mul_u128 a b : in_u64 a → in_u64 b → 0 <= a * b <= MAX_U128.
Proof.
  unfold in_u64. intros Ha Hb. split; [apply Z.mul_nonneg_nonneg; lia|].
  transitivity (MAX_U64 * MAX_U64).
  - apply Z.mul_le_mono_nonneg; lia.
  - by vm_compute.
Qed.

Lemma abs_diff_u64 a b : in_u64 a → in_u64 b → in_u64 (Z.abs (a - b)).
Proof. unfold in_u64. lia. Qed.

Lemma abs_diff_u128 a b : in_u128 a → in_u128 b → in_u128 (Z.abs (a - b)).
Proof. unfold in_u128. lia. Qed.

(** C7. [price_pnl] and [funding_pnl] do not read the side: a long and a
    short of the same size get the same result, and a returned value is the
    absolute price (or funding) movement scaled by the size, never
    negative.  Both return whenever their products fit in 128 bits, and the
    health of two positions that differ only in their side is the same. *)
Theorem pnl_directionless cur entry px sz cum_now cum_open (s1 s2 : Z) :
  price_pnl cur entry sz s1 = price_pnl cur entry sz s2
  ∧ funding_pnl px sz s1 cum_now cum_open
    = funding_pnl px sz s2 cum_now cum_open
  ∧ (∀ v, price_pnl cur entry sz s1 = Ok v →
       v = Z.abs (cur - entry) * sz ∧ 0 <= v)
  ∧ (∀ v, funding_pnl px sz s1 cum_now cum_open = Ok v →
       v = px * sz * Z.abs (cum_now - cum_open) / 10000 ∧ 0 <= v)
  ∧ (in_u64 cur → in_u64 entry → in_u64 sz →
       price_pnl cur entry sz s1 = Ok (Z.abs (cur - entry) * sz))
  ∧ (in_u64 px → in_u64 sz → in_u128 cum_now → in_u128 cum_open →
       px * sz * Z.abs (cum_now - cum_open) <= MAX_U128 →
       funding_pnl px sz s1 cum_now cum_open
       = Ok (px * sz * Z.abs (cum_now - cum_open) / 10000))
  ∧ (∀ p pos pos',
       size pos' = size pos → entry_px pos' = entry_px pos →
       margin pos' = margin pos →
       funding_index_open pos' = funding_index_open pos →
       health p pos' = health p pos).
Proof.
  split; [reflexivity|]. split; [reflexivity|]. split; [|split; [|split; [|split]]].
  - intros v Hv. apply price_pnl_inv in Hv. lia.
  - intros v Hv. apply funding_pnl_inv in Hv. lia.
  - intros Hc He Hs. apply price_pnl_in.
    + pose proof (abs_diff_u64 _ _ Hc He) as Hd. unfold in_u64 in Hd.
      assert (MAX_U64 <= MAX_U128) by (by vm_compute). lia.
    + apply u64_mul_u128; [by apply abs_diff_u64 | done].
  - intros Hp Hs Hn Ho Hfit. apply funding_pnl_in.
    + by apply u64_mul_u128.
    + by apply abs_diff_u128.
    + done.
  - intros p pos pos' Hs He Hm Hf. unfold health, price_pnl, funding_pnl.
    by rewrite Hs, He, Hm, Hf.
Qed.

Lemma pnl_directionless_witness :
  price_pnl 120 100 3 0 = Ok 60 ∧ price_pnl 80 100 3 1 = Ok 60
  ∧ funding_pnl 100 3 0 40 10 = funding_pnl 100 3 1 40 10.
Proof.
  split; [|split].
  - apply (proj1 (proj2 (proj2 (proj2 (proj2
      (pnl_directionless 120 100 0 3 0 0 0 1)))))); vm_compute; by split.
  - apply (proj1 (proj2 (proj2 (proj2 (proj2
      (pnl_directionless 80 100 0 3 0 0 1 0)))))); vm_compute; by split.
  - apply (proj1 (proj2 (pnl_directionless 0 0 100 3 40 10 0 1))).
Defined.

(** * Opening a position *)

Lemma required_init_margin_in n lev init :
  in_u128 n → 0 < lev → 0 <= init → n * init <= MAX_U128 →
  required_init_margin n lev init = Ok (Z.max (n / lev) (n * init / 10000)).
Proof.
  unfold in_u128. intros Hn Hlev Hinit Hfit. unfold required_init_margin, mul128.
  rewrite div128_ok by lia. simpl.
  rewrite checked_in by (split; [apply Z.mul_nonneg_nonneg; lia | done]).
  simpl. f_equal. destruct (Z.gtb_spec (n / lev) (n * init / 10000)); lia.
Qed.



(** * Oracles *)

Lemma assert_ok b e (u : unit) : assert_ b e = Ok u → b = true.
Proof. by destruct b. Qed.

Lemma assert_bind_ok {A : Type} b e (k : result A) v :
  (assert_ b e;; k) = Ok v → b = true ∧ k = Ok v.
Proof. by destruct b. Qed.

Lemma borrow_global_ok (g : gmap N Pair) a p :
  borrow_global g a = Ok p → g !! a = Some p.
Proof. unfold borrow_global. destruct (g !! a); [by intros [= ->] | done]. Qed.

(** C8. On an existing market, [set_mark_price] called by an address that
    is not the registered price oracle, and [push_funding] called by an
    address that is not the registered funding oracle, abort with
    PermissionDenied; the storage (mark price, funding index, funding
    timestamp and positions of every market) is left as it was. *)
Theorem oracle_authorization (g : gmap N Pair) admin pid caller p :
  g !! admin = Some p →
  (∀ px, caller ≠ oracle p →
     set_mark_price g admin pid caller px = Abort (permission_denied E_NOT_AUTH)
     ∧ commit g (set_mark_price g admin pid caller px) = g)
  ∧ (∀ fb seed now, caller ≠ vrf_oracle p →
       push_funding g admin pid caller fb seed now
       = Abort (permission_denied E_NOT_AUTH)
       ∧ commit g (push_funding g admin pid caller fb seed now) = g).
Proof.
  intros Hp. split.
  - intros px Hne.
    assert (H : set_mark_price g admin pid caller px
                = Abort (permission_denied E_NOT_AUTH)).
    { unfold set_mark_price, pair_object_address, borrow_global.
      rewrite (exists_Some _ _ _ Hp), Hp. simpl.
      by rewrite bool_decide_eq_false_2. }
    by rewrite H.
  - intros fb seed now Hne.
    assert (H : push_funding g admin pid caller fb seed now
                = Abort (permission_denied E_NOT_AUTH)).
    { unfold push_funding, pair_object_address, borrow_global.
      rewrite (exists_Some _ _ _ Hp), Hp. simpl.
      by rewrite bool_decide_eq_false_2. }
    by rewrite H.
Qed.

Lemma market0_pair0 : market0 !! 1%N = Some pair0.
Proof. by vm_compute. Qed.

Lemma oracle_authorization_witness :
  set_mark_price market0 1%N 7 5%N 300 = Abort (permission_denied E_NOT_AUTH)
  ∧ push_funding market0 1%N 7 2%N 0 100 7200
    = Abort (permission_denied E_NOT_AUTH).
Proof.
  destruct (oracle_authorization market0 1%N 7 5%N pair0 market0_pair0)
    as [Hs _].
  destruct (oracle_authorization market0 1%N 7 2%N pair0 market0_pair0)
    as [_ Hf].
  split.
  - apply Hs. by vm_compute.
  - apply Hf. by vm_compute.
Defined.

(** * What a successful call has done *)

Lemma create_pair_ok (g : gmap N Pair) admin pid ml im mm mf o v px ts g' :
  create_pair g admin pid ml im mm mf o v px ts = Ok g' →
  g !! admin = None
  ∧ g' = <[admin :=
            {| pair_id := pid;
               cfg := {| max_lev_bps := ml; init_margin_bps := im;
                         maint_margin_bps := mm; max_funding_bps_hour := mf |};
               mark_px := px; cum_funding_bps := 0; last_funding_ts := ts;
               oracle := o; vrf_oracle := v; positions := ∅ |}]> g.
Proof.
  unfold create_pair, pair_object_address, move_to.
  intros [_ H]%assert_bind_ok.
  destruct (g !! admin); [done|]. by injection H as <-.
Qed.

Lemma set_mark_price_ok (g : gmap N Pair) admin pid caller px g' :
  set_mark_price g admin pid caller px = Ok g' →
  ∃ p, g !! admin = Some p ∧ caller = oracle p
       ∧ g' = <[admin := set_mark_px p px]> g.
Proof.
  unfold set_mark_price, pair_object_address.
  intros [_ H]%assert_bind_ok.
  apply bind_ok in H as (p & Hp%borrow_global_ok & H).
  apply assert_bind_ok in H as [Hc%bool_decide_eq_true H].
  injection H as <-. eauto.
Qed.

Lemma push_funding_ok (g : gmap N Pair) admin pid caller fb seed now g' :
  push_funding g admin pid caller fb seed now = Ok g' →
  ∃ p, g !! admin = Some p ∧ caller = vrf_oracle p
       ∧ ((now <= last_funding_ts p ∧ g' = g)
          ∨ (0 < now - last_funding_ts p < 3600
             ∧ 0 <= signed_rate seed (max_funding_bps_hour (cfg p))
             ∧ g' = g)
          ∨ (3600 <= now - last_funding_ts p
             ∧ 0 <= signed_rate seed (max_funding_bps_hour (cfg p))
             ∧ g' = <[admin :=
                       set_funding p
                         (cum_funding_bps p
                          + signed_rate seed (max_funding_bps_hour (cfg p))
                            * ((now - last_funding_ts p) / 3600))
                         (last_funding_ts p
                          + (now - last_funding_ts p) / 3600 * 3600)]> g)).
Proof.
  unfold push_funding, pair_object_address.
  intros [_ H]%assert_bind_ok.
  apply bind_ok in H as (p & Hp%borrow_global_ok & H).
  apply assert_bind_ok in H as [Hc%bool_decide_eq_true H].
  exists p. split; [done|]. split; [done|].
  apply bind_ok in H as (dt & Hdt & H).
  assert (Hdt' : (dt = 0 ∧ now - last_funding_ts p <= 0)
                 ∨ (dt = now - last_funding_ts p ∧ 0 < dt)).
  { destruct (Z.gtb_spec now (last_funding_ts p)).
    - apply checked_ok in Hdt as [-> ?]. right. lia.
    - injection Hdt as <-. left. lia. }
  destruct (Z.eqb_spec dt 0) as [Hz|Hnz].
  { injection H as <-. left. split; [lia | done]. }
  right.
  destruct Hdt' as [[? _]|[-> Hpos]]; [done|].
  apply bind_ok in H as (twice & Htwice & H).
  apply bind_ok in H as (span & Hspan & H).
  apply bind_ok in H as (m & Hm & H).
  apply bind_ok in H as (r & Hr & H).
  apply bind_ok in H as (signed & Hsigned & H).
  apply bind_ok in H as (hours & Hhours & H).
  apply checked_ok in Htwice as [-> ?].
  apply checked_ok in Hspan as [-> ?].
  unfold rem128 in Hm.
  destruct (Z.eqb_spec (max_funding_bps_hour (cfg p) * 2 + 1) 0); [done|].
  injection Hm as <-.
  apply checked_ok in Hr as [-> ?].
  apply checked_ok in Hsigned as [-> ?].
  unfold div64 in Hhours. simpl in Hhours. injection Hhours as <-.
  assert (Hrate : seed `mod` (max_funding_bps_hour (cfg p) * 2 + 1)
                  - max_funding_bps_hour (cfg p)
                  = signed_rate seed (max_funding_bps_hour (cfg p))).
  { unfold signed_rate. do 2 f_equal. lia. }
  rewrite Hrate in *.
  destruct (Z.gtb_spec ((now - last_funding_ts p) / 3600) 0) as [Hh|Hh].
  - apply bind_ok in H as (accrued & Hacc & H).
    apply bind_ok in H as (cum & Hcum & H).
    apply bind_ok in H as (secs & Hsecs & H).
    apply bind_ok in H as (ts & Hts & H).
    apply checked_ok in Hacc as [-> ?].
    apply checked_ok in Hcum as [-> ?].
    apply checked_ok in Hsecs as [-> ?].
    apply checked_ok in Hts as [-> ?].
    injection H as <-. right. split; [|split; [lia | done]].
    destruct (Z.le_gt_cases 3600 (now - last_funding_ts p)); [done|].
    rewrite Z.div_small in Hh; lia.
  - injection H as <-. left. split; [|split; [lia | done]].
    destruct (Z.le_gt_cases 3600 (now - last_funding_ts p)) as [Hge|]; [|lia].
    assert (1 <= (now - last_funding_ts p) / 3600); [|lia].
    apply Z.div_le_lower_bound; lia.
Qed.

Lemma open_position_ok (g : gmap N Pair) admin user pid sz sd lev m px g' :
  open_position g admin user pid sz sd lev m px = Ok g' →
  ∃ p, g !! admin = Some p ∧ positions p !! user = None
       ∧ sd < 2 ∧ 0 < sz ∧ 0 < lev <= max_lev_bps (cfg p)
       ∧ 0 <= mark_px p * sz <= MAX_U128 ∧ 0 <= m
       ∧ g' = <[admin :=
                 set_positions p
                   (<[user := {| side := sd; size := sz;
                                 entry_px := mark_px p; margin := m;
                                 lev_bps := lev;
                                 funding_index_open := cum_funding_bps p |}]>
                      (positions p))]> g.
Proof.
  unfold open_position, pair_object_address.
  intros [Hsd%Z.ltb_lt H]%assert_bind_ok.
  apply assert_bind_ok in H as [Hsz%Z.gtb_lt H].
  apply assert_bind_ok in H as [_ H].
  apply bind_ok in H as (p & Hp%borrow_global_ok & H).
  apply assert_bind_ok in H as [Hlev%andb_true_iff H].
  destruct Hlev as [Hl1%Z.gtb_lt Hl2%Z.leb_le].
  apply assert_bind_ok in H as [Hfree%negb_true_iff H].
  apply bind_ok in H as (n & Hn & H).
  apply bind_ok in H as (req & Hreq & H).
  apply assert_bind_ok in H as [Hm%Z.geb_le H].
  apply bind_ok in H as (t & Ht & H).
  injection H as <-.
  apply checked_ok in Hn as [-> Hn].
  assert (Hnone : positions p !! user = None).
  { unfold table_contains in Hfree. apply bool_decide_eq_false in Hfree.
    destruct (positions p !! user) eqn:E; [|done]. exfalso. apply Hfree. eauto. }
  unfold table_add in Ht. rewrite Hnone in Ht. injection Ht as <-.
  assert (0 <= req).
  { unfold required_init_margin, mul128 in Hreq.
    apply bind_ok in Hreq as (bl & Hbl & Hreq).
    apply bind_ok in Hreq as (sc & Hsc & Hreq).
    apply bind_ok in Hreq as (bf & Hbf & Hreq).
    injection Hreq as <-.
    apply div128_inv in Hbl as [-> ?]. apply checked_ok in Hsc as [-> ?].
    apply div128_inv in Hbf as [-> _].
    assert (0 <= mark_px p * sz * init_margin_bps (cfg p) / 10000)
      by (apply Z.div_pos; lia).
    destruct (_ >? _); [|done]. apply Z.div_pos; lia. }
  exists p. repeat split; try done; lia.
Qed.

Lemma close_position_ok (g : gmap N Pair) admin user pid stc g' eq :
  close_position g admin user pid stc = Ok (g', eq) →
  ∃ p t, g !! admin = Some p ∧ g' = <[admin := set_positions p t]> g.
Proof.
  unfold close_position, pair_object_address.
  intros [_ H]%assert_bind_ok.
  apply bind_ok in H as (p & Hp%borrow_global_ok & H).
  apply assert_bind_ok in H as [_ H].
  apply assert_bind_ok in H as [_ H].
  apply bind_ok in H as (pos & _ & H).
  apply assert_bind_ok in H as [_ H].
  do 7 (apply bind_ok in H as (? & _ & H)).
  apply assert_bind_ok in H as [_ H].
  do 3 (apply bind_ok in H as (? & _ & H)).
  injection H as <- _. eauto.
Qed.

Lemma liquidate_not_ok (g : gmap N Pair) admin victim pid g' :
  liquidate g admin victim pid ≠ Ok g'.
Proof.
  pose proof (liquidate_cases g admin victim pid) as Hc.
  destruct (g !! admin) as [p|]; [|by rewrite Hc].
  destruct (positions p !! victim) as [pos|]; [|by rewrite Hc].
  destruct (health p pos); by rewrite Hc.
Qed.

(** * The funding index never decreases *)

Lemma cum_grows_refl (o : option Pair) : cum_grows o o.
Proof. destruct o; simpl; [lia | done]. Qed.

Lemma cum_grows_trans (o1 o2 o3 : option Pair) :
  cum_grows o1 o2 → cum_grows o2 o3 → cum_grows o1 o3.
Proof. destruct o1, o2, o3; simpl; try done; lia. Qed.

Lemma cum_grows_insert (g : gmap N Pair) a p p' b :
  g !! a = Some p → cum_funding_bps p <= cum_funding_bps p' →
  cum_grows (g !! b) (<[a := p']> g !! b).
Proof.
  intros Hp Hle. destruct (decide (a = b)) as [<-|Hne].
  - by rewrite lookup_insert_eq, Hp.
  - rewrite lookup_insert_ne by done. apply cum_grows_refl.
Qed.

Lemma cum_grows_fresh (g : gmap N Pair) a p' b :
  g !! a = None → 0 <= cum_funding_bps p' →
  cum_grows (g !! b) (<[a := p']> g !! b).
Proof.
  intros Hp Hle. destruct (decide (a = b)) as [<-|Hne].
  - by rewrite lookup_insert_eq, Hp.
  - rewrite lookup_insert_ne by done. apply cum_grows_refl.
Qed.

Lemma exec_cum_grows (g : gmap N Pair) c g' a :
  exec g c = Ok g' → cum_grows (g !! a) (g' !! a).
Proof.
  destruct c as [adm id ml im mm mf o v px ts | adm id cl px
                | adm id cl fb seed now | adm u id sz sd lev m px
                | adm u id stc | adm v id]; simpl; intros H.
  - apply create_pair_ok in H as [Hnone ->]. by apply cum_grows_fresh.
  - apply set_mark_price_ok in H as (p & Hp & _ & ->).
    by eapply cum_grows_insert.
  - apply push_funding_ok in H
      as (p & Hp & _ & [[_ ->]|[(_ & _ & ->)|(Hdt & Hrate & ->)]]).
    + apply cum_grows_refl.
    + apply cum_grows_refl.
    + eapply cum_grows_insert; [done|]. simpl.
      assert (0 <= (now - last_funding_ts p) / 3600)
        by (apply Z.div_pos; lia).
      nia.
  - apply open_position_ok in H as (p & Hp & _ & _ & _ & _ & _ & _ & ->).
    by eapply cum_grows_insert.
  - destruct (close_position g adm u id stc) as [[g1 eq]|] eqn:Hc; [|done].
    injection H as <-.
    apply close_position_ok in Hc as (p & t & Hp & ->).
    by eapply cum_grows_insert.
  - by apply liquidate_not_ok in H.
Qed.

Lemma commit_cum_grows (g : gmap N Pair) c a :
  cum_grows (g !! a) (commit g (exec g c) !! a).
Proof.
  destruct (exec g c) as [g'|e] eqn:He; simpl.
  - by eapply exec_cum_grows.
  - apply cum_grows_refl.
Qed.

Lemma run_cum_grows cs : ∀ (g : gmap N Pair) a,
  cum_grows (g !! a) (run g cs !! a).
Proof.
  induction cs as [|c cs IH]; intros g a; simpl.
  - apply cum_grows_refl.
  - eapply cum_grows_trans; [apply commit_cum_grows | apply IH].
Qed.

(** The unsigned subtraction of the cap from the residue of the seed. *)
Lemma push_funding_negative_rate (g : gmap N Pair) admin pid p fb seed now :
  g !! admin = Some p → last_funding_ts p < now →
  signed_rate seed (max_funding_bps_hour (cfg p)) < 0 →
  push_funding g admin pid (vrf_oracle p) fb seed now = Abort ARITHMETIC_ERROR.
Proof.
  intros Hp Hnow Hneg.
  destruct (push_funding g admin pid (vrf_oracle p) fb seed now)
    as [g'|e] eqn:H.
  - apply push_funding_ok in H
      as (p' & Hp' & _ & [[Hdt _]|[(_ & Hrate & _)|(_ & Hrate & _)]]);
      rewrite Hp in Hp'; injection Hp' as <-; lia.
  - f_equal. revert H. unfold push_funding, pair_object_address, borrow_global.
    rewrite (exists_Some _ _ _ Hp), Hp. simpl.
    rewrite bool_decide_eq_true_2 by done. simpl.
    revert e.
    match goal with |- ∀ e, ?r = Abort e → _ => change (arith_only r) end.
    apply arith_only_bind.
    + unfold sub64. arith_only_tac.
    + intros dt. unfold mul64, add64, rem128, as_u64, sub128, div64, mul128,
        add128.
      destruct (dt =? 0); [apply arith_only_ok|].
      arith_only_tac.
Qed.

(** C10. The funding index never decreases: [create_pair] starts it at 0,
    every call that returns leaves it as it was or adds a quantity that is
    not negative, so along every sequence of transactions it only grows and
    is never negative from the empty storage; and a call of [push_funding]
    by the funding oracle after the last funding time whose derived rate
    (seed mod (2*cap+1)) - cap is negative aborts with an arithmetic error,
    from the unsigned subtraction of the cap. *)
Theorem cum_funding_monotone :
  (∀ (g : gmap N Pair) admin pid ml im mm mf o v px ts g',
     create_pair g admin pid ml im mm mf o v px ts = Ok g' →
     ∃ p, g' !! admin = Some p ∧ cum_funding_bps p = 0)
  ∧ (∀ (g : gmap N Pair) c g' a p,
       exec g c = Ok g' → g !! a = Some p →
       ∃ p', g' !! a = Some p' ∧ cum_funding_bps p <= cum_funding_bps p')
  ∧ (∀ (g : gmap N Pair) cs a p,
       g !! a = Some p →
       ∃ p', run g cs !! a = Some p'
             ∧ cum_funding_bps p <= cum_funding_bps p')
  ∧ (∀ cs a p, run ∅ cs !! a = Some p → 0 <= cum_funding_bps p)
  ∧ (∀ (g : gmap N Pair) admin pid p fb seed now,
       g !! admin = Some p → last_funding_ts p < now →
       seed mod (2 * max_funding_bps_hour (cfg p) + 1)
       - max_funding_bps_hour (cfg p) < 0 →
       push_funding g admin pid (vrf_oracle p) fb seed now
       = Abort ARITHMETIC_ERROR).
Proof.
  split; [|split; [|split; [|split]]].
  - intros g admin pid ml im mm mf o v px ts g' [_ ->]%create_pair_ok.
    eexists. by rewrite lookup_insert_eq.
  - intros g c g' a p He Hp.
    pose proof (exec_cum_grows g c g' a He) as Hg. rewrite Hp in Hg.
    destruct (g' !! a) as [p'|]; [eauto | done].
  - intros g cs a p Hp.
    pose proof (run_cum_grows cs g a) as Hg. rewrite Hp in Hg.
    destruct (run g cs !! a) as [p'|]; [eauto | done].
  - intros cs a p Hp.
    pose proof (run_cum_grows cs ∅ a) as Hg.
    by rewrite lookup_empty, Hp in Hg.
  - intros g admin pid p fb seed now Hp Hnow Hneg.
    by apply push_funding_negative_rate.
Qed.

Lemma cum_funding_monotone_witness :
  (∃ p', run market0 [PushFunding 1%N 7 3%N 0 100 7200] !! 1%N = Some p'
         ∧ cum_funding_bps pair0 <= cum_funding_bps p')
  ∧ push_funding market0 1%N 7 3%N 0 0 7200 = Abort ARITHMETIC_ERROR.
Proof.
  destruct cum_funding_monotone as (_ & _ & Hrun & _ & Hneg). split.
  - exact (Hrun market0 [PushFunding 1%N 7 3%N 0 100 7200] 1%N pair0
             market0_pair0).
  - apply (Hneg market0 1%N 7 pair0 0 0 7200 market0_pair0); by vm_compute.
Defined.

(** C2 (the code at the failing input).  On [market0] the cap is 50, so the
    seed 7 has residue 7 modulo 101 and the rate of the docstring is
    7 - 50 = -43; the call of the funding oracle one hour after the last
    funding time aborts with an arithmetic error and accrues nothing. *)
Theorem push_funding_negative_seed_aborts :
  signed_rate 7 50 = -43
  ∧ push_funding market0 1%N 7 3%N 0 7 3600 = Abort ARITHMETIC_ERROR
  ∧ commit market0 (push_funding market0 1%N 7 3%N 0 7 3600) !! 1%N
    = Some pair0.
Proof. repeat split; by vm_compute. Qed.

(** Whole-hour accrual, for the calls that return: less than an hour after
    the last funding time nothing changes, whether the call returns or
    aborts; from one hour on, a call that returns has added rate * hours to
    the index and hours * 3600 to the last funding time. *)
Lemma push_funding_quantized (g : gmap N Pair) admin pid caller fb seed now p :
  g !! admin = Some p →
  (now - last_funding_ts p < 3600 →
   commit g (push_funding g admin pid caller fb seed now) = g)
  ∧ (∀ g', push_funding g admin pid caller fb seed now = Ok g' →
       3600 <= now - last_funding_ts p →
       g' !! admin
       = Some (set_funding p
                 (cum_funding_bps p
                  + signed_rate seed (max_funding_bps_hour (cfg p))
                    * ((now - last_funding_ts p) / 3600))
                 (last_funding_ts p
                  + (now - last_funding_ts p) / 3600 * 3600))).
Proof.
  intros Hp. split.
  - intros Hdt.
    destruct (push_funding g admin pid caller fb seed now) as [g'|e] eqn:H;
      [|done].
    apply push_funding_ok in H
      as (p' & Hp' & _ & [[_ ->]|[(_ & _ & ->)|(Hge & _)]]); try done.
    rewrite Hp in Hp'. injection Hp' as <-. lia.
  - intros g' H Hge.
    apply push_funding_ok in H
      as (p' & Hp' & _ & [[Hle _]|[(Hlt & _)|(_ & _ & ->)]]);
      rewrite Hp in Hp'; injection Hp' as <-; try lia.
    by rewrite lookup_insert_eq.
Qed.

(** C3 (the code at the failing input).  On [market0] (cap 50, last funding
    time 0) the funding oracle pushes the seed 0 at time 7200: two whole
    hours have passed and the rate of the docstring is -50, but the call
    aborts with an arithmetic error, so the funding index stays 0 and the
    last funding time stays 0 instead of advancing by 7200. *)
Theorem push_funding_two_hours_aborts :
  (7200 - last_funding_ts pair0) / 3600 = 2
  ∧ signed_rate 0 50 = -50
  ∧ push_funding market0 1%N 7 3%N 0 0 7200 = Abort ARITHMETIC_ERROR
  ∧ (∃ p, commit market0 (push_funding market0 1%N 7 3%N 0 0 7200) !! 1%N
          = Some p
          ∧ cum_funding_bps p = 0 ∧ last_funding_ts p = 0).
Proof.
  split; [by vm_compute|]. split; [by vm_compute|]. split; [by vm_compute|].
  exists pair0. repeat split; by vm_compute.
Qed.

(** * Closing a position *)

Lemma table_borrow_Some (t : gmap N Position) k v :
  t !! k = Some v → table_borrow t k = Ok v.
Proof. intros H. unfold table_borrow. by rewrite H. Qed.

Lemma share_le m stc sz : 0 <= m → 0 < stc <= sz → 0 <= m * stc / sz <= m.
Proof.
  intros Hm Hs. split.
  - apply Z.div_pos; [apply Z.mul_nonneg_nonneg|]; lia.
  - apply Z.div_le_upper_bound; [lia|]. rewrite (Z.mul_comm sz m).
    apply Z.mul_le_mono_nonneg_l; lia.
Qed.

Lemma close_position_in (g : gmap N Pair) admin user pid stc p pos :
  g !! admin = Some p → positions p !! user = Some pos →
  0 < stc <= size pos → in_u64 (size pos) → in_u64 (margin pos) →
  Z.abs (mark_px p - entry_px pos) <= MAX_U128 →
  Z.abs (mark_px p - entry_px pos) * stc <= MAX_U128 →
  0 <= mark_px p * stc <= MAX_U128 →
  Z.abs (cum_funding_bps p - funding_index_open pos) <= MAX_U128 →
  mark_px p * stc * Z.abs (cum_funding_bps p - funding_index_open pos)
  <= MAX_U128 →
  margin pos * stc / size pos
  + (Z.abs (mark_px p - entry_px pos) * stc
     + mark_px p * stc
       * Z.abs (cum_funding_bps p - funding_index_open pos) / 10000)
  <= MAX_U128 →
  close_position g admin user pid stc
  = Ok (<[admin :=
           set_positions p
             (closed_positions (positions p) user pos stc
                (margin pos * stc / size pos))]> g,
        margin pos * stc / size pos
        + (Z.abs (mark_px p - entry_px pos) * stc
           + mark_px p * stc
             * Z.abs (cum_funding_bps p - funding_index_open pos) / 10000)).
Proof.
  intros Hp Hpos Hstc Hsz Hm Hd Hdq Hn Hf Hfq Heq.
  unfold in_u64 in Hsz, Hm.
  assert (Hstc64 : in_u64 stc) by (unfold in_u64; lia).
  pose proof (u64_mul_u128 _ _ Hm Hstc64) as Hms.
  pose proof (share_le (margin pos) stc (size pos) (proj1 Hm) Hstc) as Hshare.
  assert (Hpp : 0 <= Z.abs (mark_px p - entry_px pos) * stc)
    by (apply Z.mul_nonneg_nonneg; lia).
  assert (Hfp : 0 <= mark_px p * stc
                     * Z.abs (cum_funding_bps p - funding_index_open pos)
                     / 10000).
  { apply Z.div_pos; [apply Z.mul_nonneg_nonneg|]; lia. }
  unfold close_position, pair_object_address, borrow_global.
  rewrite (exists_Some _ _ _ Hp), Hp. simpl.
  rewrite (table_contains_Some _ _ _ Hpos). simpl.
  destruct (Z.gtb_spec stc 0); [simpl | lia].
  rewrite (table_borrow_Some _ _ _ Hpos). simpl.
  destruct (Z.geb_spec (size pos) stc); [simpl | lia].
  unfold mul128 at 1. rewrite checked_in by done. simpl.
  rewrite div128_ok by lia. simpl.
  unfold as_u64. rewrite checked_in by lia. simpl.
  rewrite price_pnl_in by (done || lia). simpl.
  rewrite funding_pnl_in by done. simpl.
  unfold add128. rewrite checked_in by lia. simpl.
  rewrite checked_in by lia. simpl.
  destruct (Z.geb_spec
              (margin pos * stc / size pos
               + (Z.abs (mark_px p - entry_px pos) * stc
                  + mark_px p * stc
                    * Z.abs (cum_funding_bps p - funding_index_open pos)
                    / 10000)) 0); [simpl | lia].
  unfold sub64. rewrite checked_in by lia. simpl.
  rewrite checked_in by lia. simpl.
  unfold closed_positions, table_remove.
  destruct (size pos - stc =? 0); simpl; [|done].
  by rewrite lookup_insert_eq, delete_insert_eq.
Qed.



(** * Opening and closing at once *)

Lemma set_positions_id p : set_positions p (positions p) = p.
Proof. by destruct p. Qed.

Lemma set_positions_twice p t t' :
  set_positions (set_positions p t) t' = set_positions p t'.
Proof. done. Qed.

(** A full close while the mark price is the entry price and the funding
    index is the snapshot of the position. *)
Lemma close_at_entry (g : gmap N Pair) admin user pid p pos :
  g !! admin = Some p → positions p !! user = Some pos →
  mark_px p = entry_px pos → cum_funding_bps p = funding_index_open pos →
  0 < size pos → in_u64 (size pos) → in_u64 (margin pos) →
  0 <= mark_px p * size pos <= MAX_U128 →
  close_position g admin user pid (size pos)
  = Ok (<[admin := set_positions p (delete user (positions p))]> g,
        margin pos).
Proof.
  intros Hp Hpos Hpx Hcum Hszpos Hsz Hm Hn.
  assert (Hm' := Hm). unfold in_u64 in Hm'.
  assert (MAX_U64 <= MAX_U128) by (by vm_compute).
  assert (Hshare : margin pos * size pos / size pos = margin pos)
    by (apply Z.div_mul; lia).
  assert (Hzero : Z.abs (mark_px p - entry_px pos) * size pos
                  + mark_px p * size pos
                    * Z.abs (cum_funding_bps p - funding_index_open pos)
                    / 10000 = 0).
  { rewrite Hpx, Hcum, !Z.sub_diag. simpl. by rewrite Z.mul_0_r. }
  rewrite (close_position_in g admin user pid (size pos) p pos);
    try done; try lia.
  1: { unfold closed_positions. rewrite Z.sub_diag. simpl.
       rewrite Hshare. do 2 f_equal. lia. }
  all: rewrite ?Hpx, ?Hcum, ?Z.sub_diag; simpl; rewrite ?Z.mul_0_r; simpl; lia.
Qed.

(** C6. After a successful [open_position] (of any size, side, leverage
    and margin), a full close of that position, in any later storage where
    the mark price is still its entry price and the funding index is still
    its snapshot, succeeds, releases exactly the locked margin and deletes
    the position; closed at once, the storage is again the one before the
    open. *)
Theorem open_close_round_trip (g : gmap N Pair) admin user pid sz sd lev m
    px g1 :
  in_u64 sz → in_u64 m →
  open_position g admin user pid sz sd lev m px = Ok g1 →
  ∃ p1 pos,
    g1 !! admin = Some p1 ∧ positions p1 !! user = Some pos
    ∧ size pos = sz ∧ margin pos = m
    ∧ entry_px pos = mark_px p1
    ∧ funding_index_open pos = cum_funding_bps p1
    ∧ close_position g1 admin user pid sz = Ok (g, m)
    ∧ ∀ (g2 : gmap N Pair) p2,
        g2 !! admin = Some p2 → positions p2 !! user = Some pos →
        mark_px p2 = entry_px pos →
        cum_funding_bps p2 = funding_index_open pos →
        ∃ g3 p3,
          close_position g2 admin user pid sz = Ok (g3, m)
          ∧ g3 !! admin = Some p3 ∧ positions p3 !! user = None
          ∧ ∀ u, u ≠ user → positions p3 !! u = positions p2 !! u.
Proof.
  intros Hsz Hm Hopen.
  apply open_position_ok in Hopen
    as (p & Hp & Hnone & Hsd & Hszpos & Hlev & Hn & Hm0 & ->).
  set (pos := {| side := sd; size := sz; entry_px := mark_px p; margin := m;
                 lev_bps := lev; funding_index_open := cum_funding_bps p |}).
  assert (Hgen : ∀ (g2 : gmap N Pair) p2,
             g2 !! admin = Some p2 → positions p2 !! user = Some pos →
             mark_px p2 = entry_px pos →
             cum_funding_bps p2 = funding_index_open pos →
             close_position g2 admin user pid sz
             = Ok (<[admin := set_positions p2 (delete user (positions p2))]> g2,
                   m)).
  { intros g2 p2 Hp2 Hpos2 Hpx Hcum.
    apply (close_at_entry g2 admin user pid p2 pos); try done.
    by rewrite Hpx. }
  exists (set_positions p (<[user := pos]> (positions p))), pos.
  split; [by rewrite lookup_insert_eq|].
  split; [simpl; by rewrite lookup_insert_eq|].
  do 4 (split; [done|]). split.
  - rewrite (Hgen _ (set_positions p (<[user := pos]> (positions p))));
      try done.
    + simpl. rewrite delete_insert_id by done.
      rewrite set_positions_twice, set_positions_id, insert_insert_eq.
      by rewrite insert_id.
    + by rewrite lookup_insert_eq.
    + simpl. by rewrite lookup_insert_eq.
  - intros g2 p2 Hp2 Hpos2 Hpx Hcum. eexists _, _.
    split; [by apply Hgen|]. split; [by rewrite lookup_insert_eq|].
    simpl. split; [by rewrite lookup_delete_eq|].
    intros u Hu. by rewrite lookup_delete_ne.
Qed.

Lemma open_close_round_trip_witness :
  close_position opened0 1%N 9%N 7 1 = Ok (market0, 200).
Proof.
  destruct (open_close_round_trip market0 1%N 9%N 7 1 0 5000 200 0 opened0)
    as (p1 & pos & _ & _ & _ & _ & _ & _ & Hclose & _).
  - by vm_compute.
  - by vm_compute.
  - by vm_compute.
  - exact Hclose.
Defined.

(** * Further properties of the ledger *)

(** ** Creating a market *)

Lemma get_mark_px_Some (g : gmap N Pair) a pid p :
  g !! a = Some p → get_mark_px g a pid = Ok (mark_px p).
Proof.
  intros Hp. unfold get_mark_px, pair_object_address, borrow_global.
  by rewrite (exists_Some _ _ _ Hp), Hp.
Qed.

Lemma get_cum_funding_bps_Some (g : gmap N Pair) a pid p :
  g !! a = Some p → get_cum_funding_bps g a pid = Ok (cum_funding_bps p).
Proof.
  intros Hp. unfold get_cum_funding_bps, pair_object_address, borrow_global.
  by rewrite (exists_Some _ _ _ Hp), Hp.
Qed.

Lemma create_pair_taken (g : gmap N Pair) admin pid ml im mm mf o v px ts p :
  g !! admin = Some p →
  create_pair g admin pid ml im mm mf o v px ts
  = Abort (already_exists E_PAIR_EXISTS).
Proof.
  intros Hp. unfold create_pair, pair_object_address.
  by rewrite (exists_Some _ _ _ Hp).
Qed.

(** X1. An address holds at most one market, whatever the pair
    identifiers: [create_pair] succeeds exactly when the admin holds no
    market yet; then the views answer with the initial price and a funding
    index of 0 for every pair identifier asked, the markets of the other
    addresses are untouched, and a further [create_pair] by the same admin,
    also with another pair identifier, aborts with AlreadyExists. *)
Theorem create_pair_one_market_per_admin (g : gmap N Pair) admin
    pid ml im mm mf o v px ts :
  ((∃ g', create_pair g admin pid ml im mm mf o v px ts = Ok g')
   ↔ g !! admin = None)
  ∧ (g !! admin = None →
     ∃ g', create_pair g admin pid ml im mm mf o v px ts = Ok g'
       ∧ (∀ pid', get_mark_px g' admin pid' = Ok px
                  ∧ get_cum_funding_bps g' admin pid' = Ok 0)
       ∧ (∀ a, a ≠ admin → g' !! a = g !! a)
       ∧ (∀ pid' ml' im' mm' mf' o' v' px' ts',
            create_pair g' admin pid' ml' im' mm' mf' o' v' px' ts'
            = Abort (already_exists E_PAIR_EXISTS))).
Proof.
  assert (Hnew : g !! admin = None →
    create_pair g admin pid ml im mm mf o v px ts
    = Ok (<[admin :=
             {| pair_id := pid;
                cfg := {| max_lev_bps := ml; init_margin_bps := im;
                          maint_margin_bps := mm;
                          max_funding_bps_hour := mf |};
                mark_px := px; cum_funding_bps := 0; last_funding_ts := ts;
                oracle := o; vrf_oracle := v; positions := ∅ |}]> g)).
  { intros Hnone. unfold create_pair, pair_object_address, move_to.
    by rewrite (exists_None _ _ Hnone), Hnone. }
  split.
  - split.
    + intros [g' [Hnone _]%create_pair_ok]. done.
    + intros Hnone. eexists. by apply Hnew.
  - intros Hnone. eexists. split; [by apply Hnew|]. split; [|split].
    + intros pid'.
      match goal with
      | |- context [<[admin := ?q]> g] =>
          assert (H1 : (<[admin := q]> g) !! admin = Some q)
            by (by rewrite lookup_insert_eq)
      end.
      by rewrite (get_mark_px_Some _ _ _ _ H1),
        (get_cum_funding_bps_Some _ _ _ _ H1).
    + intros a Ha. by rewrite lookup_insert_ne.
    + intros. eapply create_pair_taken. by rewrite lookup_insert_eq.
Qed.

Lemma create_pair_one_market_per_admin_witness :
  ∃ g', create_pair ∅ 1%N 7 5000 20000 20000 50 2%N 3%N 100 0 = Ok g'
        ∧ get_mark_px g' 1%N 8 = Ok 100
        ∧ create_pair g' 1%N 8 1000 0 0 0 4%N 5%N 1 1
          = Abort (already_exists E_PAIR_EXISTS).
Proof.
  destruct (create_pair_one_market_per_admin ∅ 1%N 7 5000 20000 20000 50
              2%N 3%N 100 0) as [_ H].
  destruct H as (g' & Hc & Hv & _ & Hagain); [by vm_compute|].
  exists g'. split; [exact Hc|]. split; [apply Hv | apply Hagain].
Defined.

(** ** Setting the mark price *)

Lemma set_mark_price_in (g : gmap N Pair) admin pid p px :
  g !! admin = Some p →
  set_mark_price g admin pid (oracle p) px
  = Ok (<[admin := set_mark_px p px]> g).
Proof.
  intros Hp. unfold set_mark_price, pair_object_address, borrow_global.
  rewrite (exists_Some _ _ _ Hp), Hp. simpl.
  by rewrite bool_decide_eq_true_2.
Qed.

(** X2. The price oracle always gets its price through, without any check
    of the value: [set_mark_price] by the registered oracle returns, the
    price read back by [get_mark_px] is the new one, the rest of the market
    (configuration, funding index and time, oracles, positions) and the
    other markets are as before; setting the same price again gives the
    same storage, and of two prices set in a row the last one wins. *)
Theorem set_mark_price_overwrites (g : gmap N Pair) admin pid p px :
  g !! admin = Some p →
  ∃ g1,
    set_mark_price g admin pid (oracle p) px = Ok g1
    ∧ g1 = <[admin := set_mark_px p px]> g
    ∧ get_mark_px g1 admin pid = Ok px
    ∧ (∀ a, a ≠ admin → g1 !! a = g !! a)
    ∧ set_mark_price g1 admin pid (oracle p) px = Ok g1
    ∧ (∀ px2, set_mark_price g1 admin pid (oracle p) px2
              = set_mark_price g admin pid (oracle p) px2).
Proof.
  intros Hp. eexists. split; [by apply set_mark_price_in|].
  split; [done|].
  assert (H1 : (<[admin := set_mark_px p px]> g) !! admin
               = Some (set_mark_px p px)) by (by rewrite lookup_insert_eq).
  split; [by rewrite (get_mark_px_Some _ _ _ _ H1)|].
  split; [intros a Ha; by rewrite lookup_insert_ne|].
  assert (Hlast : ∀ px2,
    set_mark_price (<[admin := set_mark_px p px]> g) admin pid (oracle p) px2
    = set_mark_price g admin pid (oracle p) px2).
  { intros px2.
    pose proof (set_mark_price_in _ admin pid (set_mark_px p px) px2 H1) as E.
    change (oracle (set_mark_px p px)) with (oracle p) in E. rewrite E.
    rewrite (set_mark_price_in g admin pid p px2 Hp).
    by rewrite insert_insert_eq. }
  split; [|done].
  rewrite Hlast. by apply set_mark_price_in.
Qed.

Lemma set_mark_price_overwrites_witness :
  ∃ g1, set_mark_price market0 1%N 7 2%N 0 = Ok g1
        ∧ get_mark_px g1 1%N 7 = Ok 0.
Proof.
  destruct (set_mark_price_overwrites market0 1%N 7 pair0 0 market0_pair0)
    as (g1 & Hs & _ & Hget & _).
  exists g1. split; [exact Hs | exact Hget].
Defined.

(** ** A market that does not exist *)

(** X3. Where the admin holds no market, every oracle call, trading call
    and view aborts with NotFound for the pair; [open_position] does so once
    its side and size have passed, which it checks first (a bad side or a
    size of 0 is an InvalidArgument even without a market). *)
Theorem missing_market_not_found (g : gmap N Pair) admin pid :
  g !! admin = None →
  (∀ caller px,
     set_mark_price g admin pid caller px = Abort (not_found E_PAIR_NOT_FOUND))
  ∧ (∀ caller fb seed now,
       push_funding g admin pid caller fb seed now
       = Abort (not_found E_PAIR_NOT_FOUND))
  ∧ (∀ user sz sd lev m px,
       sd < 2 → 0 < sz →
       open_position g admin user pid sz sd lev m px
       = Abort (not_found E_PAIR_NOT_FOUND))
  ∧ (∀ user sz sd lev m px,
       ¬ (sd < 2 ∧ 0 < sz) →
       ∃ r, open_position g admin user pid sz sd lev m px
            = Abort (invalid_argument r))
  ∧ (∀ user stc,
       close_position g admin user pid stc
       = Abort (not_found E_PAIR_NOT_FOUND))
  ∧ (∀ victim,
       liquidate g admin victim pid = Abort (not_found E_PAIR_NOT_FOUND))
  ∧ get_mark_px g admin pid = Abort (not_found E_PAIR_NOT_FOUND)
  ∧ get_cum_funding_bps g admin pid = Abort (not_found E_PAIR_NOT_FOUND)
  ∧ (∀ owner,
       get_position g admin pid owner = Abort (not_found E_PAIR_NOT_FOUND)).
Proof.
  intros Hnone.
  assert (Hset : ∀ caller px, set_mark_price g admin pid caller px
                              = Abort (not_found E_PAIR_NOT_FOUND)).
  { intros. unfold set_mark_price, pair_object_address.
    by rewrite (exists_None _ _ Hnone). }
  assert (Hpush : ∀ pid' caller fb seed now,
             push_funding g admin pid' caller fb seed now
             = Abort (not_found E_PAIR_NOT_FOUND)).
  { intros. unfold push_funding, pair_object_address.
    by rewrite (exists_None _ _ Hnone). }
  assert (Hopen : ∀ pid' user sz sd lev m px,
             ∃ e, open_position g admin user pid' sz sd lev m px = Abort e
                  ∧ (sd < 2 → 0 < sz → e = not_found E_PAIR_NOT_FOUND)
                  ∧ (¬ (sd < 2 ∧ 0 < sz) → ∃ r, e = invalid_argument r)).
  { intros. unfold open_position, pair_object_address.
    destruct (Z.ltb_spec sd 2); simpl;
      [|eexists; split; [done|]; split; [lia | eauto]].
    destruct (Z.gtb_spec sz 0); simpl;
      [|eexists; split; [done|]; split; [lia | eauto]].
    rewrite (exists_None _ _ Hnone). simpl.
    eexists; split; [done|]. split; [done|]. intros []. done. }
  assert (Hclose : ∀ pid' user stc,
             close_position g admin user pid' stc
             = Abort (not_found E_PAIR_NOT_FOUND)).
  { intros. unfold close_position, pair_object_address.
    by rewrite (exists_None _ _ Hnone). }
  assert (Hliq : ∀ pid' victim,
             liquidate g admin victim pid'
             = Abort (not_found E_PAIR_NOT_FOUND)).
  { intros. pose proof (liquidate_cases g admin victim pid') as Hc.
    by rewrite Hnone in Hc. }
  split; [done|]. split; [by apply Hpush|]. split.
  { intros user sz sd lev m px Hsd Hsz.
    destruct (Hopen pid user sz sd lev m px) as (e & -> & He & _).
    by rewrite He. }
  split.
  { intros user sz sd lev m px Hbad.
    destruct (Hopen pid user sz sd lev m px) as (e & -> & _ & He).
    destruct (He Hbad) as [r ->]. eauto. }
  split; [by apply Hclose|]. split; [by apply Hliq|].
  split.
  { unfold get_mark_px, pair_object_address.
    by rewrite (exists_None _ _ Hnone). }
  split.
  { unfold get_cum_funding_bps, pair_object_address.
    by rewrite (exists_None _ _ Hnone). }
  intros owner. unfold get_position, pair_object_address.
  by rewrite (exists_None _ _ Hnone).
Qed.

Lemma missing_market_not_found_witness :
  close_position market0 5%N 9%N 7 1 = Abort (not_found E_PAIR_NOT_FOUND)
  ∧ open_position market0 5%N 9%N 7 1 0 5000 200 0
    = Abort (not_found E_PAIR_NOT_FOUND).
Proof.
  destruct (missing_market_not_found market0 5%N 7)
    as (_ & _ & Ho & _ & Hc & _); [by vm_compute|].
  split; [apply Hc | apply Ho; by vm_compute].
Defined.

(** ** What a successful close has done *)

Lemma table_borrow_ok (t : gmap N Position) k v :
  table_borrow t k = Ok v → t !! k = Some v.
Proof. unfold table_borrow. destruct (t !! k); [by intros [= ->] | done]. Qed.

Lemma close_position_inv (g : gmap N Pair) admin user pid stc g' eq :
  close_position g admin user pid stc = Ok (g', eq) →
  ∃ p pos,
    g !! admin = Some p ∧ positions p !! user = Some pos
    ∧ 0 < stc <= size pos
    ∧ 0 <= margin pos * stc / size pos <= margin pos
    ∧ eq = margin pos * stc / size pos
           + (Z.abs (mark_px p - entry_px pos) * stc
              + mark_px p * stc
                * Z.abs (cum_funding_bps p - funding_index_open pos) / 10000)
    ∧ margin pos * stc / size pos <= eq
    ∧ g' = <[admin :=
              set_positions p
                (closed_positions (positions p) user pos stc
                   (margin pos * stc / size pos))]> g.
Proof.
  unfold close_position, pair_object_address.
  intros [_ H]%assert_bind_ok.
  apply bind_ok in H as (p & Hp%borrow_global_ok & H).
  apply assert_bind_ok in H as [_ H].
  apply assert_bind_ok in H as [Hpos%Z.gtb_lt H].
  apply bind_ok in H as (pos & Hb%table_borrow_ok & H).
  apply assert_bind_ok in H as [Hle%Z.geb_le H].
  apply bind_ok in H as (scaled & Hscaled & H).
  apply bind_ok in H as (share & Hshare & H).
  apply bind_ok in H as (ms & Hms & H).
  apply bind_ok in H as (pp & Hpp & H).
  apply bind_ok in H as (fp & Hfp & H).
  apply bind_ok in H as (tot & Htot & H).
  apply bind_ok in H as (equity & Hequity & H).
  apply assert_bind_ok in H as [_ H].
  apply bind_ok in H as (ns & Hns & H).
  apply bind_ok in H as (nm & Hnm & H).
  apply bind_ok in H as (t' & Ht' & H).
  injection H as <- <-.
  apply checked_ok in Hscaled as [-> ?].
  apply div128_inv in Hshare as [-> ?].
  apply checked_ok in Hms as [-> ?].
  apply price_pnl_inv in Hpp as [-> ?].
  apply funding_pnl_inv in Hfp as (-> & ? & _).
  apply checked_ok in Htot as [-> ?].
  apply checked_ok in Hequity as [-> ?].
  apply checked_ok in Hns as [-> ?].
  apply checked_ok in Hnm as [-> ?].
  exists p, pos. split; [done|]. split; [done|]. split; [lia|].
  split; [lia|]. split; [done|]. split; [lia|].
  do 2 f_equal. unfold closed_positions.
  destruct (size pos - stc =? 0).
  - unfold table_remove in Ht'. rewrite lookup_insert_eq in Ht'.
    injection Ht' as <-. by rewrite delete_insert_eq.
  - by injection Ht' as <-.
Qed.

(** ** Opening a position, and reading it back *)

Lemma get_position_Some (g : gmap N Pair) a pid owner p :
  g !! a = Some p → get_position g a pid owner = Ok (positions p !! owner).
Proof.
  intros Hp. unfold get_position, pair_object_address, borrow_global.
  rewrite (exists_Some _ _ _ Hp), Hp. simpl.
  destruct (positions p !! owner) as [pos|] eqn:Hpos.
  - rewrite (table_contains_Some _ _ _ Hpos). simpl.
    by rewrite (table_borrow_Some _ _ _ Hpos).
  - by rewrite (table_contains_None _ _ Hpos).
Qed.

(** [open_position] past its checks of the arguments and of the market. *)
Lemma open_position_eval (g : gmap N Pair) admin user pid sz sd lev m px p :
  g !! admin = Some p → positions p !! user = None →
  sd < 2 → 0 < sz → 0 < lev <= max_lev_bps (cfg p) →
  in_u64 sz → in_u64 (mark_px p) → 0 <= init_margin_bps (cfg p) →
  mark_px p * sz * init_margin_bps (cfg p) <= MAX_U128 →
  open_position g admin user pid sz sd lev m px
  = if m >=? Z.max (mark_px p * sz / lev)
                   (mark_px p * sz * init_margin_bps (cfg p) / 10000)
    then Ok (<[admin :=
                set_positions p
                  (<[user := opened p sz sd lev m]> (positions p))]> g)
    else Abort (invalid_argument E_BAD_MARGIN).
Proof.
  intros Hp Hnone Hsd Hsz Hlev Hsz64 Hmark Hinit Hfit.
  unfold open_position, pair_object_address, borrow_global.
  destruct (Z.ltb_spec sd 2); [simpl | lia].
  destruct (Z.gtb_spec sz 0); [simpl | lia].
  rewrite (exists_Some _ _ _ Hp), Hp. simpl.
  destruct (Z.gtb_spec lev 0); [|lia].
  destruct (Z.leb_spec lev (max_lev_bps (cfg p))); [simpl | lia].
  rewrite (table_contains_None _ _ Hnone). simpl.
  pose proof (u64_mul_u128 _ _ Hmark Hsz64) as Hn.
  unfold notional, mul128. rewrite checked_in by done. simpl.
  rewrite required_init_margin_in by (done || lia). simpl.
  destruct (_ >=? _); simpl; [|done].
  unfold table_add. by rewrite Hnone.
Qed.

(** X4. On an existing market, with a size and a mark price of type u64
    and a product notional * initBps that fits in 128 bits, [open_position]
    succeeds exactly when the side is 0 or 1, the size is positive, the
    leverage is positive and within the bound of the market, the account
    has no position there and the margin reaches the required initial
    margin.  The position then read back by [get_position] has the current
    mark price as entry price (the argument entry_px is not used) and the
    current funding index as snapshot; the positions of the others and the
    market itself are as before. *)
Theorem open_position_succeeds_iff (g : gmap N Pair) admin user pid sz sd lev
    m px p :
  g !! admin = Some p →
  in_u64 sz → in_u64 (mark_px p) → 0 <= init_margin_bps (cfg p) →
  mark_px p * sz * init_margin_bps (cfg p) <= MAX_U128 →
  ((∃ g', open_position g admin user pid sz sd lev m px = Ok g')
   ↔ (sd < 2 ∧ 0 < sz ∧ 0 < lev <= max_lev_bps (cfg p)
      ∧ positions p !! user = None
      ∧ Z.max (mark_px p * sz / lev)
              (mark_px p * sz * init_margin_bps (cfg p) / 10000) <= m))
  ∧ (∀ g', open_position g admin user pid sz sd lev m px = Ok g' →
       get_position g' admin pid user = Ok (Some (opened p sz sd lev m))
       ∧ (∀ u, u ≠ user →
            get_position g' admin pid u = get_position g admin pid u)
       ∧ get_mark_px g' admin pid = get_mark_px g admin pid
       ∧ get_cum_funding_bps g' admin pid = get_cum_funding_bps g admin pid
       ∧ (∀ px', open_position g admin user pid sz sd lev m px' = Ok g')).
Proof.
  intros Hp Hsz64 Hmark Hinit Hfit. split.
  - split.
    + intros [g' Hopen]. pose proof Hopen as Hopen'.
      apply open_position_ok in Hopen
        as (p' & Hp' & Hnone & Hsd & Hsz & Hlev & _ & _ & _).
      rewrite Hp in Hp'. injection Hp' as <-.
      rewrite (open_position_eval g admin user pid sz sd lev m px p)
        in Hopen' by done.
      destruct (Z.geb_spec m (Z.max (mark_px p * sz / lev)
                  (mark_px p * sz * init_margin_bps (cfg p) / 10000)));
        [done | discriminate].
    + intros (Hsd & Hsz & Hlev & Hnone & Hm).
      rewrite (open_position_eval g admin user pid sz sd lev m px p) by done.
      destruct (Z.geb_spec m (Z.max (mark_px p * sz / lev)
                  (mark_px p * sz * init_margin_bps (cfg p) / 10000)));
        [eauto | lia].
  - intros g' Hopen. pose proof Hopen as Hopen0.
    apply open_position_ok in Hopen
      as (p' & Hp' & Hnone & Hsd & Hsz & Hlev & _ & _ & ->).
    rewrite Hp in Hp'. injection Hp' as <-.
    set (p1 := set_positions p (<[user := opened p sz sd lev m]> (positions p))).
    assert (H1 : (<[admin := p1]> g) !! admin = Some p1)
      by (by rewrite lookup_insert_eq).
    split; [|split; [|split; [|split]]].
    + rewrite (get_position_Some _ _ _ _ _ H1). simpl.
      by rewrite lookup_insert_eq.
    + intros u Hu. rewrite (get_position_Some _ _ _ _ _ H1),
        (get_position_Some _ _ _ _ _ Hp). simpl.
      by rewrite lookup_insert_ne.
    + by rewrite (get_mark_px_Some _ _ _ _ H1), (get_mark_px_Some _ _ _ _ Hp).
    + by rewrite (get_cum_funding_bps_Some _ _ _ _ H1),
        (get_cum_funding_bps_Some _ _ _ _ Hp).
    + intros px'.
      rewrite (open_position_eval g admin user pid sz sd lev m px' p) by done.
      by rewrite (open_position_eval g admin user pid sz sd lev m px p)
        in Hopen0 by done.
Qed.

Lemma open_position_succeeds_iff_witness :
  ∃ g', open_position market0 1%N 9%N 7 1 0 5000 200 0 = Ok g'.
Proof.
  destruct (open_position_succeeds_iff market0 1%N 9%N 7 1 0 5000 200 0 pair0)
    as [[_ H] _].
  - exact market0_pair0.
  - by vm_compute.
  - by vm_compute.
  - by vm_compute.
  - by vm_compute.
  - apply H. repeat split; by vm_compute.
Defined.

(** X5. One position per account and market: while an account has a
    position, no [open_position] for it succeeds, whatever the arguments;
    with a valid side, size and leverage the call aborts with AlreadyExists,
    also when the margin offered would not have been enough.  So a second
    open right after a successful one always aborts. *)
Theorem open_position_once (g : gmap N Pair) admin user pid p pos :
  g !! admin = Some p → positions p !! user = Some pos →
  (∀ sz sd lev m px,
     (∃ e, open_position g admin user pid sz sd lev m px = Abort e)
     ∧ (sd < 2 → 0 < sz → 0 < lev <= max_lev_bps (cfg p) →
        open_position g admin user pid sz sd lev m px
        = Abort (already_exists E_POS_EXISTS))).
Proof.
  intros Hp Hpos sz sd lev m px.
  unfold open_position, pair_object_address, borrow_global.
  destruct (Z.ltb_spec sd 2); simpl; [|split; [eauto | lia]].
  destruct (Z.gtb_spec sz 0); simpl; [|split; [eauto | lia]].
  rewrite (exists_Some _ _ _ Hp), Hp. simpl.
  destruct (Z.gtb_spec lev 0); simpl; [|split; [eauto | lia]].
  destruct (Z.leb_spec lev (max_lev_bps (cfg p))); simpl;
    [|split; [eauto | lia]].
  rewrite (table_contains_Some _ _ _ Hpos). simpl. eauto.
Qed.

Lemma open_position_once_witness :
  open_position opened0 1%N 9%N 7 5 1 100 0 0
  = Abort (already_exists E_POS_EXISTS).
Proof.
  apply (open_position_once opened0 1%N 9%N 7
           (set_positions pair0 {[ 9%N := position0 ]}) position0);
    by vm_compute.
Defined.



(** ** What the calls leave alone *)

Lemma same_market_refl p : same_market p p.
Proof. by repeat split. Qed.

Lemma market_step_refl c p : market_step c p p.
Proof. repeat split; (done || lia). Qed.

Lemma insert_market_step (g : gmap N Pair) c admin p p' a q :
  g !! admin = Some p → market_step c p p' → g !! a = Some q →
  ∃ q', <[admin := p']> g !! a = Some q' ∧ market_step c q q'.
Proof.
  intros Hp Hstep Hq. destruct (decide (admin = a)) as [<-|Hne].
  - rewrite Hp in Hq. injection Hq as <-. exists p'.
    by rewrite lookup_insert_eq.
  - exists q. rewrite lookup_insert_ne by done.
    split; [done | apply market_step_refl].
Qed.

Lemma exec_market_step (g : gmap N Pair) c g' a q :
  exec g c = Ok g' → g !! a = Some q →
  ∃ q', g' !! a = Some q' ∧ market_step c q q'.
Proof.
  destruct c as [adm id ml im mm mf o v px ts | adm id cl px
                | adm id cl fb seed now | adm u id sz sd lev m px
                | adm u id stc | adm v id]; simpl; intros H Hq.
  - apply create_pair_ok in H as [Hnone ->].
    exists q. split; [|apply market_step_refl].
    rewrite lookup_insert_ne; [done|]. intros <-. congruence.
  - apply set_mark_price_ok in H as (p & Hp & _ & ->).
    eapply insert_market_step; [done| |done].
    repeat split; simpl; (done || lia).
  - apply push_funding_ok in H
      as (p & Hp & _ & [[_ ->]|[(_ & _ & ->)|(Hdt & Hrate & ->)]]).
    + exists q. split; [done | apply market_step_refl].
    + exists q. split; [done | apply market_step_refl].
    + eapply insert_market_step; [done| |done].
      assert (0 <= (now - last_funding_ts p) / 3600)
        by (apply Z.div_pos; lia).
      repeat split; simpl; (done || lia).
  - apply open_position_ok in H as (p & Hp & _ & _ & _ & _ & _ & _ & ->).
    eapply insert_market_step; [done| |done].
    repeat split; simpl; (done || lia).
  - destruct (close_position g adm u id stc) as [[g1 eq]|] eqn:Hc; [|done].
    injection H as <-.
    apply close_position_ok in Hc as (p & t & Hp & ->).
    eapply insert_market_step; [done| |done].
    repeat split; simpl; (done || lia).
  - by apply liquidate_not_ok in H.
Qed.

(** X7. Trading calls never move the price or the funding state, and the
    oracle and admin calls never touch a position: a returning
    [open_position] or [close_position] leaves the mark price, the funding
    index and the funding time of every market as they were, and a
    returning [create_pair], [set_mark_price] or [push_funding] leaves the
    positions of every market that existed as they were.  No returning
    call removes a market or changes its identifier, configuration or
    oracles. *)
Theorem calls_frame (g : gmap N Pair) c g' a p :
  exec g c = Ok g' → g !! a = Some p →
  ∃ p', g' !! a = Some p'
    ∧ pair_id p' = pair_id p ∧ cfg p' = cfg p
    ∧ oracle p' = oracle p ∧ vrf_oracle p' = vrf_oracle p
    ∧ (is_trade c = true →
       mark_px p' = mark_px p ∧ cum_funding_bps p' = cum_funding_bps p
       ∧ last_funding_ts p' = last_funding_ts p)
    ∧ (is_trade c = false → positions p' = positions p).
Proof.
  intros He Hp.
  destruct (exec_market_step g c g' a p He Hp)
    as (p' & Hp' & (Hid & Hcfg & Ho & Hv) & _ & Htrade & Hother).
  exists p'. do 5 (split; [done|]). split; done.
Qed.

Lemma calls_frame_witness :
  ∃ p', opened0 !! 1%N = Some p' ∧ mark_px p' = 100 ∧ cfg p' = cfg pair0.
Proof.
  destruct (calls_frame market0 (OpenPosition 1%N 9%N 7 1 0 5000 200 0)
              opened0 1%N pair0)
    as (p' & Hp' & _ & Hcfg & _ & _ & Htrade & _).
  - by vm_compute.
  - exact market0_pair0.
  - exists p'. split; [exact Hp'|]. split; [|exact Hcfg].
    by destruct (Htrade eq_refl) as [-> _].
Defined.

(** ** Along an execution *)

Lemma run_same_market cs : ∀ (g : gmap N Pair) a p,
  g !! a = Some p →
  ∃ p', run g cs !! a = Some p' ∧ same_market p p'
        ∧ last_funding_ts p <= last_funding_ts p'.
Proof.
  induction cs as [|c cs IH]; intros g a p Hp; simpl.
  - exists p. split; [done|]. split; [apply same_market_refl | lia].
  - destruct (exec g c) as [g1|e] eqn:He; simpl; [|by apply IH].
    destruct (exec_market_step g c g1 a p He Hp)
      as (p1 & Hp1 & (Hid & Hcfg & Ho & Hv) & Hts & _).
    destruct (IH g1 a p1 Hp1) as (p' & Hp' & (Hid' & Hcfg' & Ho' & Hv') & Hts').
    exists p'. split; [done|]. split; [|lia].
    repeat split; congruence.
Qed.

(** X8. Along every sequence of transactions a market, once created,
    stays: it is never removed, its pair identifier, its configuration
    (leverage bound, margin ratios, funding cap) and its two oracle
    addresses never change, and its last funding time never goes back. *)
Theorem market_is_permanent (g : gmap N Pair) cs a p :
  g !! a = Some p →
  ∃ p', run g cs !! a = Some p'
    ∧ pair_id p' = pair_id p ∧ cfg p' = cfg p
    ∧ oracle p' = oracle p ∧ vrf_oracle p' = vrf_oracle p
    ∧ last_funding_ts p <= last_funding_ts p'.
Proof.
  intros Hp.
  destruct (run_same_market cs g a p Hp)
    as (p' & Hp' & (Hid & Hcfg & Ho & Hv) & Hts).
  exists p'. repeat split; done.
Qed.

Lemma market_is_permanent_witness :
  ∃ p', underwater !! 1%N = Some p' ∧ cfg p' = cfg pair0
        ∧ oracle p' = 2%N.
Proof.
  destruct (market_is_permanent market0
              [OpenPosition 1%N 9%N 7 1 0 5000 200 0;
               SetMarkPrice 1%N 7 2%N 300] 1%N pair0 market0_pair0)
    as (p' & Hp' & _ & Hcfg & Ho & _).
  exists p'. split; [exact Hp'|]. split; [exact Hcfg | exact Ho].
Defined.

(** ** Stored positions are well formed *)

Lemma ledger_ok_insert (g : gmap N Pair) admin p' :
  ledger_ok g →
  (∀ u pos, positions p' !! u = Some pos → position_ok p' pos) →
  ledger_ok (<[admin := p']> g).
Proof.
  intros Hg Hp' a p u pos Ha Hu. destruct (decide (admin = a)) as [<-|Hne].
  - rewrite lookup_insert_eq in Ha. injection Ha as <-. by eapply Hp'.
  - rewrite lookup_insert_ne in Ha by done. by eapply Hg.
Qed.

Lemma exec_ledger_ok (g : gmap N Pair) c g' :
  ledger_ok g → exec g c = Ok g' → ledger_ok g'.
Proof.
  intros Hg.
  destruct c as [adm id ml im mm mf o v px ts | adm id cl px
                | adm id cl fb seed now | adm u id sz sd lev m px
                | adm u id stc | adm v id]; simpl; intros H.
  - apply create_pair_ok in H as [_ ->].
    apply ledger_ok_insert; [done|]. intros u pos. simpl.
    by rewrite lookup_empty.
  - apply set_mark_price_ok in H as (p & Hp & _ & ->).
    apply ledger_ok_insert; [done|]. intros u pos Hu.
    exact (Hg adm p u pos Hp Hu).
  - apply push_funding_ok in H
      as (p & Hp & _ & [[_ ->]|[(_ & _ & ->)|(_ & _ & ->)]]); try done.
    apply ledger_ok_insert; [done|]. intros u pos Hu.
    exact (Hg adm p u pos Hp Hu).
  - apply open_position_ok in H
      as (p & Hp & Hnone & Hsd & Hsz & Hlev & _ & Hm & ->).
    apply ledger_ok_insert; [done|]. intros u' pos. simpl.
    destruct (decide (u = u')) as [<-|Hne].
    + rewrite lookup_insert_eq. intros [= <-].
      unfold position_ok. simpl. lia.
    + rewrite lookup_insert_ne by done. intros Hu.
      exact (Hg adm p u' pos Hp Hu).
  - destruct (close_position g adm u id stc) as [[g1 eq]|] eqn:Hc; [|done].
    injection H as <-.
    apply close_position_inv in Hc
      as (p & pos & Hp & Hpos & Hstc & Hshare & _ & _ & ->).
    apply ledger_ok_insert; [done|]. intros u' pos'. simpl.
    unfold closed_positions.
    destruct (Hg adm p u pos Hp Hpos) as (Hs & Hsd & Hm & Hlev).
    destruct (Z.eqb_spec (size pos - stc) 0) as [Hz|Hnz];
      destruct (decide (u = u')) as [<-|Hne].
    + by rewrite lookup_delete_eq.
    + rewrite lookup_delete_ne by done. intros Hu.
      exact (Hg adm p u' pos' Hp Hu).
    + rewrite lookup_insert_eq. intros [= <-].
      unfold position_ok. simpl. lia.
    + rewrite lookup_insert_ne by done. intros Hu.
      exact (Hg adm p u' pos' Hp Hu).
  - by apply liquidate_not_ok in H.
Qed.

Lemma run_ledger_ok cs : ∀ (g : gmap N Pair), ledger_ok g → ledger_ok (run g cs).
Proof.
  induction cs as [|c cs IH]; intros g Hg; simpl; [done|].
  apply IH. destruct (exec g c) as [g1|e] eqn:He; simpl; [|done].
  by eapply exec_ledger_ok.
Qed.

(** X9. No stored position is empty or malformed: in every storage reached
    from the empty one by any sequence of transactions (and the same from
    any storage where it holds), every position on record has a positive
    size, side 0 or 1, a margin that is not negative and a positive
    leverage within the bound of its market.  A close that brings the size
    to 0 removes the record. *)
Theorem stored_positions_ok :
  (∀ cs (a : N) p u pos,
     run ∅ cs !! a = Some p → positions p !! u = Some pos →
     0 < size pos ∧ side pos < 2 ∧ 0 <= margin pos
     ∧ 0 < lev_bps pos <= max_lev_bps (cfg p))
  ∧ (∀ (g : gmap N Pair) cs, ledger_ok g → ledger_ok (run g cs)).
Proof.
  split; [|intros g cs; apply run_ledger_ok].
  intros cs a p u pos Hp Hpos.
  assert (Hok : ledger_ok (run ∅ cs)).
  { apply run_ledger_ok. intros a' p' u' pos'. by rewrite lookup_empty. }
  exact (Hok a p u pos Hp Hpos).
Qed.

Lemma stored_positions_ok_witness :
  0 < size thirds_position ∧ side thirds_position < 2
  ∧ 0 <= margin thirds_position
  ∧ 0 < lev_bps thirds_position <= max_lev_bps (cfg thirds_pair).
Proof.
  apply (proj1 stored_positions_ok
           [CreatePair 1%N 7 5000 0 0 50 2%N 3%N 100 0;
            OpenPosition 1%N 9%N 7 3 0 5000 7 0] 1%N thirds_pair 9%N);
    by vm_compute.
Defined.

(** ** Funding accrual *)

Lemma push_funding_cap_nonneg (g : gmap N Pair) admin pid caller fb seed now
    g' p :
  push_funding g admin pid caller fb seed now = Ok g' →
  g !! admin = Some p → last_funding_ts p < now →
  0 <= max_funding_bps_hour (cfg p).
Proof.
  unfold push_funding, pair_object_address.
  intros [_ H]%assert_bind_ok Hp Hnow.
  apply bind_ok in H as (p' & Hp'%borrow_global_ok & H).
  rewrite Hp in Hp'. injection Hp' as <-.
  apply assert_bind_ok in H as [_ H].
  apply bind_ok in H as (dt & Hdt & H).
  destruct (Z.gtb_spec now (last_funding_ts p)); [|lia].
  apply checked_ok in Hdt as [-> ?].
  destruct (Z.eqb_spec (now - last_funding_ts p) 0); [lia|].
  apply bind_ok in H as (twice & Htwice & _).
  apply checked_ok in Htwice as [_ ?]. lia.
Qed.

(** X10. The funding cap is respected and time is consumed in whole hours:
    a returning [push_funding] adds to the funding index at least 0 and at
    most cap times the number of whole hours since the last funding time;
    when at least one hour has passed, the new funding time is not after
    [now], what is left unconsumed is (now - last) mod 3600 seconds, and a
    further push at the same [now], with any seed, changes nothing. *)
Theorem push_funding_bounded (g : gmap N Pair) admin pid caller fb seed now
    g' p :
  g !! admin = Some p →
  push_funding g admin pid caller fb seed now = Ok g' →
  ∃ p', g' !! admin = Some p'
    ∧ 0 <= cum_funding_bps p' - cum_funding_bps p
      <= max_funding_bps_hour (cfg p)
         * Z.max 0 ((now - last_funding_ts p) / 3600)
    ∧ (now - last_funding_ts p < 3600 → p' = p)
    ∧ (3600 <= now - last_funding_ts p →
       last_funding_ts p' <= now
       ∧ now - last_funding_ts p'
         = (now - last_funding_ts p) mod 3600
       ∧ ∀ caller' fb' seed',
           commit g' (push_funding g' admin pid caller' fb' seed' now) = g').
Proof.
  intros Hp Hpush. pose proof Hpush as Hpush0.
  apply push_funding_ok in Hpush
    as (p0 & Hp0 & _ & [[Hle ->]|[(Hlt & _ & ->)|(Hge & Hrate & ->)]]);
    rewrite Hp in Hp0; injection Hp0 as <-.
  - exists p. split; [done|]. split; [|split; [done | lia]].
    rewrite Z.sub_diag, Z.max_l; [lia|].
    apply Z.div_le_upper_bound; lia.
  - exists p. split; [done|]. split; [|split; [done | lia]].
    rewrite Z.sub_diag, Z.div_small, Z.max_l; lia.
  - pose proof (push_funding_cap_nonneg _ _ _ _ _ _ _ _ p Hpush0 Hp) as Hcap.
    set (cap := max_funding_bps_hour (cfg p)) in *.
    set (dt := now - last_funding_ts p) in *.
    assert (Hh : 1 <= dt / 3600) by (apply Z.div_le_lower_bound; lia).
    assert (Hmod : 0 <= seed mod (2 * cap + 1) < 2 * cap + 1)
      by (apply Z.mod_pos_bound; lia).
    assert (Hdiv : dt = 3600 * (dt / 3600) + dt mod 3600)
      by (apply Z.div_mod; lia).
    assert (Hrem : 0 <= dt mod 3600 < 3600) by (apply Z.mod_pos_bound; lia).
    eexists. split; [by rewrite lookup_insert_eq|]. simpl.
    unfold signed_rate in *. fold cap in Hrate |- *.
    split; [|split; [lia|]].
    { rewrite Z.max_r by lia. split; [nia|].
      assert (seed mod (2 * cap + 1) - cap <= cap) by lia. nia. }
    intros _. split; [lia|]. split; [lia|].
    intros caller' fb' seed'.
    match goal with
    | |- context [<[admin := ?q]> g] =>
        apply (proj1 (push_funding_quantized (<[admin := q]> g) admin pid
                        caller' fb' seed' now q
                        ltac:(by rewrite lookup_insert_eq)))
    end.
    simpl. lia.
Qed.

Lemma push_funding_bounded_witness :
  ∃ p', commit market0 (push_funding market0 1%N 7 3%N 0 100 7300) !! 1%N
        = Some p'
        ∧ 0 <= cum_funding_bps p' - cum_funding_bps pair0 <= 50 * 2
        ∧ 7300 - last_funding_ts p' = 100.
Proof.
  destruct (push_funding_bounded market0 1%N 7 3%N 0 100 7300
              (commit market0 (push_funding market0 1%N 7 3%N 0 100 7300))
              pair0 market0_pair0)
    as (p' & Hp' & Hcum & _ & Hts).
  - by vm_compute.
  - exists p'. split; [exact Hp'|]. split; [exact Hcum|].
    destruct Hts as (_ & -> & _); by vm_compute.
Defined.

#[local] Arguments checked : simpl never.
#[local] Arguments mul64 : simpl never.
#[local] Arguments add64 : simpl never.
#[local] Arguments sub64 : simpl never.
#[local] Arguments div64 : simpl never.
#[local] Arguments rem128 : simpl never.
#[local] Arguments as_u64 : simpl never.
#[local] Arguments mul128 : simpl never.
#[local] Arguments add128 : simpl never.
#[local] Arguments sub128 : simpl never.
#[local] Arguments div128 : simpl never.

(** X11. The funding oracle's push goes through whenever the rate is
    representable: on a market with typed fields whose span 2*cap+1 fits in
    64 bits, when at least one hour has passed, the residue of the seed
    reaches the cap and the new index fits in 128 bits, [push_funding]
    returns and the new index is the old one plus
    (seed mod (2*cap+1) - cap) * hours, for a rate between 0 and cap. *)
Theorem push_funding_accrues (g : gmap N Pair) admin pid fb seed now p :
  g !! admin = Some p →
  in_u64 (last_funding_ts p) → in_u64 now → 0 <= seed →
  0 <= max_funding_bps_hour (cfg p) →
  2 * max_funding_bps_hour (cfg p) + 1 <= MAX_U64 →
  3600 <= now - last_funding_ts p →
  max_funding_bps_hour (cfg p)
  <= seed mod (2 * max_funding_bps_hour (cfg p) + 1) →
  0 <= cum_funding_bps p →
  cum_funding_bps p
  + signed_rate seed (max_funding_bps_hour (cfg p))
    * ((now - last_funding_ts p) / 3600) <= MAX_U128 →
  push_funding g admin pid (vrf_oracle p) fb seed now
  = Ok (<[admin :=
           set_funding p
             (cum_funding_bps p
              + signed_rate seed (max_funding_bps_hour (cfg p))
                * ((now - last_funding_ts p) / 3600))
             (last_funding_ts p
              + (now - last_funding_ts p) / 3600 * 3600)]> g)
  ∧ 0 <= signed_rate seed (max_funding_bps_hour (cfg p))
    <= max_funding_bps_hour (cfg p).
Proof.
  intros Hp Hlast Hnow Hseed Hcap Hspan Hdt Hres Hcum Hfit.
  unfold in_u64 in *. unfold signed_rate in *.
  set (cap := max_funding_bps_hour (cfg p)) in *.
  set (dt := now - last_funding_ts p) in *.
  assert (H64 : MAX_U64 <= MAX_U128) by (by vm_compute).
  assert (Hh : 1 <= dt / 3600) by (apply Z.div_le_lower_bound; lia).
  assert (Hmod : 0 <= seed mod (2 * cap + 1) < 2 * cap + 1)
    by (apply Z.mod_pos_bound; lia).
  assert (Hdiv : dt = 3600 * (dt / 3600) + dt mod 3600)
    by (apply Z.div_mod; lia).
  assert (Hrem : 0 <= dt mod 3600 < 3600) by (apply Z.mod_pos_bound; lia).
  assert (Hacc : 0 <= (seed mod (2 * cap + 1) - cap) * (dt / 3600)) by nia.
  split; [|lia].
  unfold push_funding, pair_object_address, borrow_global.
  rewrite (exists_Some _ _ _ Hp), Hp. simpl.
  rewrite bool_decide_eq_true_2 by done. simpl.
  destruct (Z.gtb_spec now (last_funding_ts p)); [|lia].
  fold cap. fold dt.
  rewrite (bind_eq_ok _ _ dt) by (apply checked_in; lia).
  destruct (Z.eqb_spec dt 0); [lia|].
  rewrite (bind_eq_ok _ _ (cap * 2)) by (apply checked_in; lia).
  rewrite (bind_eq_ok _ _ (cap * 2 + 1)) by (apply checked_in; lia).
  rewrite (bind_eq_ok _ _ (seed mod (cap * 2 + 1)))
    by (unfold rem128; by destruct (Z.eqb_spec (cap * 2 + 1) 0); [lia|]).
  replace (cap * 2 + 1) with (2 * cap + 1) by lia.
  rewrite (bind_eq_ok _ _ (seed mod (2 * cap + 1)))
    by (apply checked_in; lia).
  rewrite (bind_eq_ok _ _ (seed mod (2 * cap + 1) - cap))
    by (apply checked_in; lia).
  destruct (Z.gtb_spec (dt / 3600) 0) as [_|Hc];
    [|exfalso; clear -Hh Hc; lia].
  rewrite (bind_eq_ok _ _ ((seed mod (2 * cap + 1) - cap) * (dt / 3600)))
    by (apply checked_in; lia).
  rewrite (bind_eq_ok _ _ (cum_funding_bps p
             + (seed mod (2 * cap + 1) - cap) * (dt / 3600)))
    by (apply checked_in; lia).
  rewrite (bind_eq_ok _ _ (dt / 3600 * 3600)) by (apply checked_in; lia).
  rewrite (bind_eq_ok _ _ (last_funding_ts p + dt / 3600 * 3600))
    by (apply checked_in; lia).
  done.
Qed.

Lemma push_funding_accrues_witness :
  ∃ g', push_funding market0 1%N 7 3%N 0 100 7300 = Ok g'
        ∧ get_cum_funding_bps g' 1%N 7 = Ok 100.
Proof.
  destruct (push_funding_accrues market0 1%N 7 0 100 7300 pair0 market0_pair0)
    as [H _].
  - by vm_compute.
  - by vm_compute.
  - by vm_compute.
  - by vm_compute.
  - by vm_compute.
  - by vm_compute.
  - by vm_compute.
  - by vm_compute.
  - by vm_compute.
  - eexists. split; [exact H|]. by vm_compute.
Defined.

(** ** How a close can fail *)

Lemma price_pnl_arith_only cur entry sz sd : arith_only (price_pnl cur entry sz sd).
Proof. unfold price_pnl, mul128. arith_only_tac. Qed.

Lemma funding_pnl_arith_only px sz sd cn co :
  arith_only (funding_pnl px sz sd cn co).
Proof. unfold funding_pnl, notional, mul128. arith_only_tac. Qed.

(** X12. The guard of [close_position] against a negative equity never
    fires: a call of [close_position] that aborts does so with NotFound
    (no market, or no position), with InvalidArgument (a size to close of 0
    or above the size of the position) or with an arithmetic error, never
    with InvalidState; and a call that returns releases at least the margin
    share, the PnL added to it being never negative. *)
Theorem close_position_never_invalid_state (g : gmap N Pair) admin user pid
    stc :
  (∀ e, close_position g admin user pid stc = Abort e →
     e = not_found E_PAIR_NOT_FOUND ∨ e = not_found E_POS_NOT_FOUND
     ∨ e = invalid_argument E_BAD_QTY ∨ e = ARITHMETIC_ERROR)
  ∧ close_position g admin user pid stc ≠ Abort (invalid_state E_UNSAFE)
  ∧ (∀ g' eq p pos,
       close_position g admin user pid stc = Ok (g', eq) →
       g !! admin = Some p → positions p !! user = Some pos →
       0 <= margin pos * stc / size pos <= eq).
Proof.
  assert (Hab : ∀ e, close_position g admin user pid stc = Abort e →
     e = not_found E_PAIR_NOT_FOUND ∨ e = not_found E_POS_NOT_FOUND
     ∨ e = invalid_argument E_BAD_QTY ∨ e = ARITHMETIC_ERROR).
  { intros e. unfold close_position, pair_object_address, borrow_global.
    destruct (g !! admin) as [p|] eqn:Hp;
      [|rewrite (exists_None _ _ Hp); intros [= <-]; auto].
    rewrite (exists_Some _ _ _ Hp). simpl.
    destruct (positions p !! user) as [pos|] eqn:Hpos;
      [|rewrite (table_contains_None _ _ Hpos); intros [= <-]; auto].
    rewrite (table_contains_Some _ _ _ Hpos). simpl.
    destruct (stc >? 0); simpl; [|intros [= <-]; auto].
    rewrite (table_borrow_Some _ _ _ Hpos). simpl.
    destruct (size pos >=? stc); simpl; [|intros [= <-]; auto].
    intros H. do 3 right. unfold mul128, as_u64, add128, sub64 in H.
    apply bind_abort in H as [H|(scaled & _ & H)];
      [exact (arith_only_checked _ _ e H)|].
    apply bind_abort in H as [H|(share & _ & H)];
      [exact (arith_only_div128 _ _ e H)|].
    apply bind_abort in H as [H|(ms & _ & H)];
      [exact (arith_only_checked _ _ e H)|].
    apply bind_abort in H as [H|(pp & _ & H)];
      [exact (price_pnl_arith_only _ _ _ _ e H)|].
    apply bind_abort in H as [H|(fp & _ & H)];
      [exact (funding_pnl_arith_only _ _ _ _ _ e H)|].
    apply bind_abort in H as [H|(tot & _ & H)];
      [exact (arith_only_checked _ _ e H)|].
    apply bind_abort in H as [H|(equity & Heq & H)];
      [exact (arith_only_checked _ _ e H)|].
    apply checked_ok in Heq as [-> Heq].
    destruct (Z.geb_spec (ms + tot) 0); [simpl in H | lia].
    apply bind_abort in H as [H|(ns & _ & H)];
      [exact (arith_only_checked _ _ e H)|].
    apply bind_abort in H as [H|(nm & _ & H)];
      [exact (arith_only_checked _ _ e H)|].
    apply bind_abort in H as [H|(t' & _ & H)]; [|done].
    destruct (ns =? 0); [|done].
    unfold table_remove in H. by rewrite lookup_insert_eq in H. }
  split; [done|]. split.
  - intros H. by destruct (Hab _ H) as [?|[?|[?|?]]].
  - intros g' eq p pos Hc Hp Hpos.
    apply close_position_inv in Hc
      as (p' & pos' & Hp' & Hpos' & _ & Hshare & _ & Hle & _).
    rewrite Hp in Hp'. injection Hp' as <-.
    rewrite Hpos in Hpos'. injection Hpos' as <-. lia.
Qed.

Lemma close_position_never_invalid_state_witness :
  0 <= margin thirds_position * 1 / size thirds_position <= 2.
Proof.
  destruct (close_position_never_invalid_state thirds 1%N 9%N 7 1)
    as (_ & _ & H).
  apply (H (commit thirds (exec thirds (ClosePosition 1%N 9%N 7 1))) 2
           thirds_pair thirds_position).
  - by vm_compute.
  - by vm_compute.
  - by vm_compute.
Defined.

(** ** Closing in parts *)

(** X13. Truncation favours the ledger: after a returning partial close
    the record keeps size - sizeToClose and margin - marginShare, the two
    shares add up to the margin, and the margin left per unit of size is
    not lower than before: margin * size' <= margin' * size. *)
Theorem partial_close_keeps_ratio (g : gmap N Pair) admin user pid stc g' eq
    p pos :
  g !! admin = Some p → positions p !! user = Some pos →
  close_position g admin user pid stc = Ok (g', eq) →
  stc < size pos →
  ∃ p' pos',
    g' !! admin = Some p' ∧ positions p' !! user = Some pos'
    ∧ size pos' = size pos - stc ∧ 0 < size pos'
    ∧ margin pos' + margin pos * stc / size pos = margin pos
    ∧ 0 <= margin pos' <= margin pos
    ∧ margin pos * size pos' <= margin pos' * size pos
    ∧ side pos' = side pos ∧ entry_px pos' = entry_px pos
    ∧ lev_bps pos' = lev_bps pos
    ∧ funding_index_open pos' = funding_index_open pos.
Proof.
  intros Hp Hpos Hc Hlt.
  apply close_position_inv in Hc
    as (p0 & pos0 & Hp0 & Hpos0 & Hstc & Hshare & _ & _ & ->).
  rewrite Hp in Hp0. injection Hp0 as <-.
  rewrite Hpos in Hpos0. injection Hpos0 as <-.
  eexists _, _. split; [by rewrite lookup_insert_eq|]. simpl.
  unfold closed_positions.
  destruct (Z.eqb_spec (size pos - stc) 0); [lia|].
  split; [by rewrite lookup_insert_eq|]. simpl.
  assert (size pos * (margin pos * stc / size pos) <= margin pos * stc)
    by (apply Z.mul_div_le; lia).
  repeat split; (lia || nia).
Qed.

Lemma partial_close_keeps_ratio_witness :
  ∃ pos', margin pos' + 2 = 7 ∧ 7 * size pos' <= margin pos' * 3.
Proof.
  destruct (partial_close_keeps_ratio thirds 1%N 9%N 7 1
              (commit thirds (exec thirds (ClosePosition 1%N 9%N 7 1))) 2
              thirds_pair thirds_position)
    as (p' & pos' & _ & _ & _ & _ & Hsum & _ & Hratio & _).
  - by vm_compute.
  - by vm_compute.
  - by vm_compute.
  - by vm_compute.
  - exists pos'. split; [exact Hsum | exact Hratio].
Defined.

(** X14. Closing in two steps is closing at once, while the mark price is
    the entry price and the funding index is the snapshot: for a typed
    position and any part 0 < sizeToClose < size, the partial close
    releases floor(margin * sizeToClose / size), the close of the rest
    releases what is left of the margin, and the storage after the two is
    the storage after one full close, which releases the whole margin. *)
Theorem close_in_two_steps (g : gmap N Pair) admin user pid stc p pos :
  g !! admin = Some p → positions p !! user = Some pos →
  mark_px p = entry_px pos → cum_funding_bps p = funding_index_open pos →
  in_u64 (mark_px p) → in_u64 (size pos) → in_u64 (margin pos) →
  0 < stc < size pos →
  ∃ g1 g2,
    close_position g admin user pid stc
    = Ok (g1, margin pos * stc / size pos)
    ∧ close_position g1 admin user pid (size pos - stc)
      = Ok (g2, margin pos - margin pos * stc / size pos)
    ∧ close_position g admin user pid (size pos) = Ok (g2, margin pos).
Proof.
  intros Hp Hpos Hpx Hcum Hmark Hsz Hm Hstc.
  assert (Hstc64 : in_u64 stc) by (unfold in_u64 in *; lia).
  assert (Hrest64 : in_u64 (size pos - stc)) by (unfold in_u64 in *; lia).
  pose proof (share_le (margin pos) stc (size pos) (proj1 Hm)
                ltac:(lia)) as Hshare.
  set (share := margin pos * stc / size pos) in *.
  set (pos1 := set_size_margin pos (size pos - stc) (margin pos - share)).
  set (p1 := set_positions p (<[user := pos1]> (positions p))).
  assert (H64 : MAX_U64 <= MAX_U128) by (by vm_compute).
  assert (Hmax : 0 <= MAX_U128) by (by vm_compute).
  exists (<[admin := p1]> g),
    (<[admin := set_positions p (delete user (positions p))]> g).
  split; [|split].
  - pose proof (u64_mul_u128 _ _ Hmark Hstc64) as Hn.
    rewrite (close_position_in g admin user pid stc p pos); try done.
    1: { unfold closed_positions.
         destruct (Z.eqb_spec (size pos - stc) 0); [lia|].
         rewrite Hpx, Hcum, !Z.sub_diag. change (Z.abs 0) with 0.
         rewrite Z.mul_0_r, Z.mul_0_l. change (0 / 10000) with 0.
         do 2 f_equal. fold share. lia. }
    all: rewrite ?Hpx, ?Hcum, ?Z.sub_diag; change (Z.abs 0) with 0;
      rewrite ?Z.mul_0_r, ?Z.mul_0_l; change (0 / 10000) with 0;
      fold share; unfold in_u64 in *; lia.
  - pose proof (close_at_entry (<[admin := p1]> g) admin user pid p1 pos1)
      as H.
    change (size pos1) with (size pos - stc) in H.
    change (margin pos1) with (margin pos - share) in H.
    rewrite H.
    + do 2 f_equal. rewrite insert_insert_eq. f_equal. unfold p1. simpl.
      by rewrite set_positions_twice, delete_insert_eq.
    + by rewrite lookup_insert_eq.
    + unfold p1. simpl. by rewrite lookup_insert_eq.
    + done.
    + done.
    + lia.
    + done.
    + unfold in_u64 in *. lia.
    + by apply u64_mul_u128.
  - by apply close_at_entry; try lia; try (by apply u64_mul_u128).
Qed.

Lemma close_in_two_steps_witness :
  ∃ g1 g2,
    close_position thirds 1%N 9%N 7 1 = Ok (g1, 2)
    ∧ close_position g1 1%N 9%N 7 2 = Ok (g2, 5)
    ∧ close_position thirds 1%N 9%N 7 3 = Ok (g2, 7).
Proof.
  destruct (close_in_two_steps thirds 1%N 9%N 7 1 thirds_pair thirds_position)
    as (g1 & g2 & H1 & H2 & H3).
  - by vm_compute.
  - by vm_compute.
  - by vm_compute.
  - by vm_compute.
  - by vm_compute.
  - by vm_compute.
  - by vm_compute.
  - by vm_compute.
  - exists g1, g2. split; [exact H1|]. split; [exact H2 | exact H3].
Defined.

(** ** The health of a fresh position *)

Lemma maint_margin_in n bps :
  0 <= n * bps <= MAX_U128 → maint_margin n bps = Ok (n * bps / 10000).
Proof.
  intros H. unfold maint_margin, mul128.
  by rewrite (bind_eq_ok _ _ (n * bps)) by (by apply checked_in).
Qed.

(** X15. A position is never under water when it is opened, on a market
    whose maintenance ratio does not exceed its initial ratio: right after
    a returning [open_position] (typed size, margin and mark price)
    [health] returns margin - maintenance margin, which is at least 0, so
    [liquidate] on the fresh position fails with InvalidState and not with
    an arithmetic error. *)
Theorem fresh_position_is_healthy (g : gmap N Pair) admin user pid sz sd lev
    m px g1 p :
  g !! admin = Some p →
  in_u64 sz → in_u64 m → in_u64 (mark_px p) →
  0 <= maint_margin_bps (cfg p) <= init_margin_bps (cfg p) →
  mark_px p * sz * init_margin_bps (cfg p) <= MAX_U128 →
  open_position g admin user pid sz sd lev m px = Ok g1 →
  ∃ p1 pos,
    g1 !! admin = Some p1 ∧ positions p1 !! user = Some pos
    ∧ health p1 pos
      = Ok (m - mark_px p * sz * maint_margin_bps (cfg p) / 10000)
    ∧ 0 <= m - mark_px p * sz * maint_margin_bps (cfg p) / 10000
    ∧ liquidate g1 admin user pid = Abort (invalid_state E_UNSAFE).
Proof.
  intros Hp Hsz Hm Hmark Hmaint Hfit Hopen. pose proof Hopen as Hopen0.
  apply open_position_ok in Hopen
    as (p' & Hp' & Hnone & Hsd & Hszpos & Hlev & _ & _ & ->).
  rewrite Hp in Hp'. injection Hp' as <-.
  rewrite (open_position_eval g admin user pid sz sd lev m px p) in Hopen0
    by (done || lia).
  destruct (Z.geb_spec m (Z.max (mark_px p * sz / lev)
              (mark_px p * sz * init_margin_bps (cfg p) / 10000)))
    as [Hreq|]; [clear Hopen0 | discriminate].
  pose proof (u64_mul_u128 _ _ Hmark Hsz) as Hn.
  set (n := mark_px p * sz) in *.
  assert (Hnm : 0 <= n * maint_margin_bps (cfg p) <= MAX_U128) by nia.
  assert (Hmm : n * maint_margin_bps (cfg p) / 10000
                <= n * init_margin_bps (cfg p) / 10000).
  { apply Z.div_le_mono; [lia | nia]. }
  assert (0 <= n * maint_margin_bps (cfg p) / 10000)
    by (apply Z.div_pos; lia).
  assert (H64 : MAX_U64 <= MAX_U128) by (by vm_compute).
  unfold in_u64 in Hm.
  set (p1 := set_positions p (<[user := opened p sz sd lev m]> (positions p))).
  assert (Hh : health p1 (opened p sz sd lev m)
               = Ok (m - n * maint_margin_bps (cfg p) / 10000)).
  { unfold health, notional, mul128. simpl. fold n.
    rewrite (bind_eq_ok _ _ n) by (by apply checked_in).
    rewrite (bind_eq_ok _ _ (n * maint_margin_bps (cfg p) / 10000))
      by (by apply maint_margin_in).
    rewrite (bind_eq_ok _ _ 0).
    2: { rewrite price_pnl_in; rewrite Z.sub_diag; change (Z.abs 0) with 0;
           rewrite ?Z.mul_0_l; (done || lia). }
    rewrite (bind_eq_ok _ _ m) by (apply checked_ok; lia).
    rewrite (bind_eq_ok _ _ 0).
    2: { rewrite funding_pnl_in; rewrite ?Z.sub_diag; change (Z.abs 0) with 0;
           rewrite ?Z.mul_0_r; (done || lia). }
    rewrite (bind_eq_ok _ _ m) by (apply checked_ok; lia).
    by rewrite (bind_eq_ok _ _ (m - n * maint_margin_bps (cfg p) / 10000))
      by (apply checked_ok; lia). }
  exists p1, (opened p sz sd lev m).
  assert (H1 : (<[admin := p1]> g) !! admin = Some p1)
    by (by rewrite lookup_insert_eq).
  assert (H2 : positions p1 !! user = Some (opened p sz sd lev m))
    by (unfold p1; simpl; by rewrite lookup_insert_eq).
  split; [done|]. split; [done|]. split; [done|]. split; [lia|].
  pose proof (liquidate_cases (<[admin := p1]> g) admin user pid) as Hc.
  by rewrite H1, H2, Hh in Hc.
Qed.

Lemma fresh_position_is_healthy_witness :
  liquidate opened0 1%N 9%N 7 = Abort (invalid_state E_UNSAFE).
Proof.
  destruct (fresh_position_is_healthy market0 1%N 9%N 7 1 0 5000 200 0
              opened0 pair0 market0_pair0)
    as (p1 & pos & _ & _ & _ & _ & H).
  - by vm_compute.
  - by vm_compute.
  - by vm_compute.
  - by vm_compute.
  - by vm_compute.
  - by vm_compute.
  - exact H.
Defined.

(** * The trade log *)

Lemma bridge_init_ok s a ml mm s' :
  AiBridge.init s a ml mm = AiBridge.Ok s' →
  AiBridge.bridges s !! a = None ∧ AiBridge.logs s !! a = None
  ∧ s' = {| AiBridge.bridges :=
              <[a := {| AiBridge.admin := a; AiBridge.max_leverage := ml;
                        AiBridge.min_margin := mm |}]> (AiBridge.bridges s);
            AiBridge.logs :=
              <[a := {| AiBridge.trades := [] |}]> (AiBridge.logs s) |}.
Proof.
  unfold AiBridge.init.
  destruct (AiBridge.bridges s !! a) eqn:Hb; simpl; [done|].
  destruct (AiBridge.logs s !! a) eqn:Hl; simpl; [done|].
  by intros [= <-].
Qed.

Lemma bridge_set_params_ok s a ml mm s' :
  AiBridge.set_params s a ml mm = AiBridge.Ok s' →
  ∃ b, AiBridge.bridges s !! a = Some b ∧ AiBridge.admin b = a
    ∧ s' = {| AiBridge.bridges :=
                <[a := {| AiBridge.admin := AiBridge.admin b;
                          AiBridge.max_leverage := ml;
                          AiBridge.min_margin := mm |}]> (AiBridge.bridges s);
              AiBridge.logs := AiBridge.logs s |}.
Proof.
  unfold AiBridge.set_params.
  destruct (AiBridge.bridges s !! a) as [b|] eqn:Hb; simpl; [|done].
  destruct (decide (a = AiBridge.admin b)) as [Ha|Ha].
  - rewrite bool_decide_eq_true_2 by done. simpl. intros [= <-]. eauto.
  - by rewrite bool_decide_eq_false_2.
Qed.

Lemma bridge_submit_ok s u pr sd lev m ts s' :
  AiBridge.submit_ai_trade s u pr sd lev m ts = AiBridge.Ok s' →
  ∃ b log,
    AiBridge.bridges s !! u = Some b ∧ AiBridge.logs s !! u = Some log
    ∧ AiBridge.min_margin b <= m ∧ lev <= AiBridge.max_leverage b
    ∧ pr ≠ []
    ∧ s' = {| AiBridge.bridges := AiBridge.bridges s;
              AiBridge.logs :=
                <[u := {| AiBridge.trades :=
                            AiBridge.trades log
                            ++ [{| AiBridge.user := u; AiBridge.pair := pr;
                                   AiBridge.side := sd;
                                   AiBridge.leverage := lev;
                                   AiBridge.margin := m;
                                   AiBridge.timestamp := ts |}] |}]>
                  (AiBridge.logs s) |}.
Proof.
  unfold AiBridge.submit_ai_trade.
  destruct (AiBridge.bridges s !! u) as [b|] eqn:Hb; simpl; [|done].
  destruct (Z.geb_spec m (AiBridge.min_margin b)); simpl; [|done].
  destruct (Z.leb_spec lev (AiBridge.max_leverage b)); simpl; [|done].
  destruct (Z.gtb_spec (Z.of_nat (length pr)) 0) as [Hlen|]; simpl; [|done].
  destruct (AiBridge.logs s !! u) as [log|] eqn:Hl; simpl; [|done].
  intros [= <-]. exists b, log. repeat split; try done.
  intros ->. simpl in Hlen. lia.
Qed.

(** X16. [init] installs a bridge once: it returns exactly when the signer
    holds neither a bridge nor a trade log; then the signer holds a bridge
    naming it as admin with the parameters given and an empty log, the
    resources of the other addresses are untouched, and every further
    [init] by the same signer aborts, so a log is never reset. *)
Theorem bridge_init_once s a ml mm :
  ((∃ s', AiBridge.init s a ml mm = AiBridge.Ok s')
   ↔ AiBridge.bridges s !! a = None ∧ AiBridge.logs s !! a = None)
  ∧ (∀ s', AiBridge.init s a ml mm = AiBridge.Ok s' →
       AiBridge.bridges s' !! a
       = Some {| AiBridge.admin := a; AiBridge.max_leverage := ml;
                 AiBridge.min_margin := mm |}
       ∧ AiBridge.get_trades s' a = AiBridge.Ok []
       ∧ (∀ a', a' ≠ a →
            AiBridge.bridges s' !! a' = AiBridge.bridges s !! a'
            ∧ AiBridge.logs s' !! a' = AiBridge.logs s !! a')
       ∧ (∀ ml' mm',
            AiBridge.init s' a ml' mm'
            = AiBridge.Abort AiBridge.RESOURCE_EXISTS)).
Proof.
  split.
  - split.
    + intros [s' (Hb & Hl & _)%bridge_init_ok]. done.
    + intros [Hb Hl]. unfold AiBridge.init. rewrite Hb. simpl.
      rewrite Hl. eauto.
  - intros s' (Hb & Hl & ->)%bridge_init_ok. split; [|split; [|split]].
    + simpl. by rewrite lookup_insert_eq.
    + unfold AiBridge.get_trades. simpl. by rewrite lookup_insert_eq.
    + intros a' Ha. simpl. by rewrite !lookup_insert_ne.
    + intros ml' mm'. unfold AiBridge.init. simpl.
      by rewrite lookup_insert_eq.
Qed.

Lemma bridge_init_once_witness :
  ∃ s', AiBridge.init AiBridge.empty_storage 1%N 5000 10 = AiBridge.Ok s'.
Proof.
  apply (proj2 (proj1 (bridge_init_once AiBridge.empty_storage 1%N 5000 10))).
  split; by vm_compute.
Defined.

(** ** The invariant *)

Lemma bridge_exec_storage_ok s c s' :
  AiBridge.storage_ok s → AiBridge.exec s c = AiBridge.Ok s' →
  AiBridge.storage_ok s'.
Proof.
  intros Hs. destruct c as [a ml mm | a ml mm | u pr sd lev m ts]; simpl.
  - intros (Hb & Hl & ->)%bridge_init_ok a'. simpl.
    destruct (decide (a = a')) as [<-|Hne].
    + rewrite !lookup_insert_eq. split; [by split; eauto|].
      by intros b [= <-].
    + rewrite !lookup_insert_ne by done. apply Hs.
  - intros (b & Hb & Hadm & ->)%bridge_set_params_ok a'. simpl.
    destruct (decide (a = a')) as [<-|Hne].
    + rewrite lookup_insert_eq. split.
      * destruct (Hs a) as [Hiff _]. rewrite <- Hiff, Hb. by split; eauto.
      * by intros b' [= <-].
    + rewrite lookup_insert_ne by done. apply Hs.
  - intros (b & log & Hb & Hl & _ & _ & _ & ->)%bridge_submit_ok a'. simpl.
    destruct (decide (u = a')) as [<-|Hne].
    + rewrite lookup_insert_eq. split; [|apply Hs].
      rewrite Hb. by split; eauto.
    + rewrite lookup_insert_ne by done. apply Hs.
Qed.

Lemma bridge_run_storage_ok cs : ∀ s,
  AiBridge.storage_ok s → AiBridge.storage_ok (AiBridge.run s cs).
Proof.
  induction cs as [|c cs IH]; intros s Hs; simpl; [done|].
  apply IH. destruct (AiBridge.exec s c) as [s'|e] eqn:He; simpl; [|done].
  by eapply bridge_exec_storage_ok.
Qed.

Lemma bridge_empty_storage_ok : AiBridge.storage_ok AiBridge.empty_storage.
Proof.
  intros a. simpl. rewrite !lookup_empty. split; [|done].
  split; by intros [? ?].
Qed.

(** X17. The admin check of [set_params] can never fail: in every storage
    reached from the empty one a bridge names its holder as admin and comes
    with a trade log, so [set_params] returns exactly when the signer holds
    a bridge (it aborts for a missing resource otherwise, never with
    E_NOT_ADMIN); it then stores the two parameters as given, without any
    check of their values, and leaves the admin and every log as they
    were. *)
Theorem bridge_set_params_reachable cs a ml mm :
  let s := AiBridge.run AiBridge.empty_storage cs in
  AiBridge.storage_ok s
  ∧ AiBridge.set_params s a ml mm
    ≠ AiBridge.Abort (AiBridge.Code AiBridge.E_NOT_ADMIN)
  ∧ (AiBridge.bridges s !! a = None →
     AiBridge.set_params s a ml mm
     = AiBridge.Abort AiBridge.MISSING_RESOURCE)
  ∧ (∀ b, AiBridge.bridges s !! a = Some b →
       ∃ s', AiBridge.set_params s a ml mm = AiBridge.Ok s'
         ∧ AiBridge.bridges s' !! a
           = Some {| AiBridge.admin := a; AiBridge.max_leverage := ml;
                     AiBridge.min_margin := mm |}
         ∧ AiBridge.logs s' = AiBridge.logs s
         ∧ (∀ a', a' ≠ a →
              AiBridge.bridges s' !! a' = AiBridge.bridges s !! a')).
Proof.
  intros s.
  assert (Hs : AiBridge.storage_ok s)
    by (apply bridge_run_storage_ok, bridge_empty_storage_ok).
  split; [done|].
  assert (Hsome : ∀ b, AiBridge.bridges s !! a = Some b →
    AiBridge.set_params s a ml mm
    = AiBridge.Ok
        {| AiBridge.bridges :=
             <[a := {| AiBridge.admin := a; AiBridge.max_leverage := ml;
                       AiBridge.min_margin := mm |}]> (AiBridge.bridges s);
           AiBridge.logs := AiBridge.logs s |}).
  { intros b Hb. unfold AiBridge.set_params. rewrite Hb. simpl.
    destruct (Hs a) as [_ Hadm]. rewrite (Hadm b Hb).
    by rewrite bool_decide_eq_true_2. }
  assert (Hnone : AiBridge.bridges s !! a = None →
    AiBridge.set_params s a ml mm
    = AiBridge.Abort AiBridge.MISSING_RESOURCE).
  { intros Hb. unfold AiBridge.set_params. by rewrite Hb. }
  split; [|split; [done|]].
  - destruct (AiBridge.bridges s !! a) as [b|] eqn:Hb.
    + by rewrite (Hsome b).
    + by rewrite Hnone.
  - intros b Hb. eexists. split; [by apply (Hsome b)|]. simpl.
    split; [by rewrite lookup_insert_eq|]. split; [done|].
    intros a' Ha. by rewrite lookup_insert_ne.
Qed.

Lemma bridge_set_params_reachable_witness :
  ∃ s', AiBridge.set_params
          (AiBridge.run AiBridge.empty_storage [AiBridge.Init 1%N 5000 10])
          1%N 0 (2 ^ 64 - 1) = AiBridge.Ok s'.
Proof.
  destruct (bridge_set_params_reachable [AiBridge.Init 1%N 5000 10] 1%N 0
              (2 ^ 64 - 1)) as (_ & _ & _ & H).
  destruct (H {| AiBridge.admin := 1%N; AiBridge.max_leverage := 5000;
                 AiBridge.min_margin := 10 |}) as (s' & Hs' & _).
  - by vm_compute.
  - exists s'. exact Hs'.
Defined.

(** ** Submitting a trade *)

(** X18. In every storage reached from the empty one, [submit_ai_trade]
    returns exactly when the signer holds a bridge of its own, the margin
    reaches the minimum of that bridge, the leverage does not exceed its
    maximum and the pair name is not empty; the checks come in this order,
    so a margin that is too low is reported (code 2) whatever the leverage
    and the pair, then the leverage (code 3), then the empty pair (code 4),
    and a signer without a bridge aborts for the missing resource.  A
    returning call appends the one trade, with the signer as user, to the
    end of the signer's log and changes nothing else. *)
Theorem bridge_submit_reachable cs u pr sd lev m ts :
  let s := AiBridge.run AiBridge.empty_storage cs in
  let trade := {| AiBridge.user := u; AiBridge.pair := pr;
                  AiBridge.side := sd; AiBridge.leverage := lev;
                  AiBridge.margin := m; AiBridge.timestamp := ts |} in
  (AiBridge.bridges s !! u = None →
   AiBridge.submit_ai_trade s u pr sd lev m ts
   = AiBridge.Abort AiBridge.MISSING_RESOURCE)
  ∧ (∀ b, AiBridge.bridges s !! u = Some b →
       (m < AiBridge.min_margin b →
        AiBridge.submit_ai_trade s u pr sd lev m ts
        = AiBridge.Abort (AiBridge.Code AiBridge.E_INVALID_MARGIN))
       ∧ (AiBridge.min_margin b <= m → AiBridge.max_leverage b < lev →
          AiBridge.submit_ai_trade s u pr sd lev m ts
          = AiBridge.Abort (AiBridge.Code AiBridge.E_INVALID_LEVERAGE))
       ∧ (AiBridge.min_margin b <= m → lev <= AiBridge.max_leverage b →
          pr = [] →
          AiBridge.submit_ai_trade s u pr sd lev m ts
          = AiBridge.Abort (AiBridge.Code AiBridge.E_INVALID_PAIR))
       ∧ (AiBridge.min_margin b <= m → lev <= AiBridge.max_leverage b →
          pr ≠ [] →
          ∃ s', AiBridge.submit_ai_trade s u pr sd lev m ts = AiBridge.Ok s'
            ∧ AiBridge.get_trades s' u
              = AiBridge.Ok (AiBridge.logged s u ++ [trade])
            ∧ AiBridge.bridges s' = AiBridge.bridges s
            ∧ (∀ a, a ≠ u →
                 AiBridge.get_trades s' a = AiBridge.get_trades s a))).
Proof.
  intros s trade.
  assert (Hs : AiBridge.storage_ok s)
    by (apply bridge_run_storage_ok, bridge_empty_storage_ok).
  split.
  { intros Hb. unfold AiBridge.submit_ai_trade. by rewrite Hb. }
  intros b Hb. unfold AiBridge.submit_ai_trade. rewrite Hb. simpl.
  split; [|split; [|split]].
  - intros Hm. by destruct (Z.geb_spec m (AiBridge.min_margin b)); [lia|].
  - intros Hm Hlev.
    destruct (Z.geb_spec m (AiBridge.min_margin b)); [simpl | lia].
    by destruct (Z.leb_spec lev (AiBridge.max_leverage b)); [lia|].
  - intros Hm Hlev ->.
    destruct (Z.geb_spec m (AiBridge.min_margin b)); [simpl | lia].
    by destruct (Z.leb_spec lev (AiBridge.max_leverage b)); [simpl | lia].
  - intros Hm Hlev Hpr.
    destruct (Z.geb_spec m (AiBridge.min_margin b)); [simpl | lia].
    destruct (Z.leb_spec lev (AiBridge.max_leverage b)); [simpl | lia].
    destruct (Z.gtb_spec (Z.of_nat (length pr)) 0) as [_|Hlen]; simpl.
    2: { destruct pr; [done | simpl in Hlen; lia]. }
    destruct (Hs u) as [Hiff _].
    destruct (proj1 Hiff ltac:(eauto)) as [log Hlog].
    rewrite Hlog. simpl. eexists. split; [done|].
    unfold AiBridge.get_trades, AiBridge.logged. simpl.
    rewrite lookup_insert_eq, Hlog. split; [done|]. split; [done|].
    intros a Ha. by rewrite lookup_insert_ne.
Qed.

Lemma bridge_submit_reachable_witness :
  ∃ s', AiBridge.submit_ai_trade
          (AiBridge.run AiBridge.empty_storage [AiBridge.Init 1%N 5000 10])
          1%N [66; 84; 67] true 300 10 0 = AiBridge.Ok s'
        ∧ AiBridge.submit_ai_trade
            (AiBridge.run AiBridge.empty_storage [AiBridge.Init 1%N 5000 10])
            1%N [] true 9000 9 0
          = AiBridge.Abort (AiBridge.Code AiBridge.E_INVALID_MARGIN).
Proof.
  pose (b := {| AiBridge.admin := 1%N; AiBridge.max_leverage := 5000;
                AiBridge.min_margin := 10 |}).
  destruct (bridge_submit_reachable [AiBridge.Init 1%N 5000 10] 1%N
              [66; 84; 67] true 300 10 0) as [_ H].
  destruct (H b) as (_ & _ & _ & Hok); [by vm_compute|].
  destruct Hok as (s' & Hs' & _); [by vm_compute | by vm_compute | done|].
  exists s'. split; [exact Hs'|].
  destruct (bridge_submit_reachable [AiBridge.Init 1%N 5000 10] 1%N
              [] true 9000 9 0) as [_ H'].
  destruct (H' b) as (Hlow & _); [by vm_compute|].
  apply Hlow. by vm_compute.
Defined.

(** ** The log only grows *)

Lemma bridge_exec_logged s c s' a :
  AiBridge.exec s c = AiBridge.Ok s' →
  AiBridge.logged s a `prefix_of` AiBridge.logged s' a
  ∧ (∀ t, t ∈ AiBridge.logged s' a →
       t ∈ AiBridge.logged s a
       ∨ (AiBridge.user t = a ∧ AiBridge.pair t ≠ []
          ∧ c = AiBridge.SubmitAiTrade a (AiBridge.pair t) (AiBridge.side t)
                  (AiBridge.leverage t) (AiBridge.margin t)
                  (AiBridge.timestamp t))).
Proof.
  destruct c as [a0 ml mm | a0 ml mm | u pr sd lev m ts]; simpl.
  - intros (Hb & Hl & ->)%bridge_init_ok. unfold AiBridge.logged. simpl.
    destruct (decide (a0 = a)) as [<-|Hne].
    + rewrite lookup_insert_eq, Hl. simpl. split; [done|].
      intros t Ht. by apply elem_of_nil in Ht.
    + rewrite lookup_insert_ne by done. split; [done | auto].
  - intros (b & _ & _ & ->)%bridge_set_params_ok. unfold AiBridge.logged.
    simpl. split; [done | auto].
  - intros (b & log & Hb & Hl & _ & _ & Hpr & ->)%bridge_submit_ok.
    unfold AiBridge.logged. simpl.
    destruct (decide (u = a)) as [<-|Hne].
    + rewrite lookup_insert_eq, Hl. simpl. split; [by apply prefix_app_r|].
      intros t [Ht|Ht%list_elem_of_singleton]%elem_of_app; [auto|].
      right. subst t. by simpl.
    + rewrite lookup_insert_ne by done. split; [done | auto].
Qed.

Lemma bridge_run_log_stays cs : ∀ s a,
  is_Some (AiBridge.logs s !! a) →
  is_Some (AiBridge.logs (AiBridge.run s cs) !! a).
Proof.
  induction cs as [|c cs IH]; intros s a Hs; simpl; [done|].
  apply IH. destruct (AiBridge.exec s c) as [s'|e] eqn:He; simpl; [|done].
  destruct c as [a0 ml mm | a0 ml mm | u pr sd lev m ts]; simpl in He.
  - apply bridge_init_ok in He as (_ & _ & ->). simpl.
    destruct (decide (a0 = a)) as [<-|Hne].
    + rewrite lookup_insert_eq. eauto.
    + by rewrite lookup_insert_ne.
  - by apply bridge_set_params_ok in He as (b & _ & _ & ->).
  - apply bridge_submit_ok in He as (b & log & _ & _ & _ & _ & _ & ->). simpl.
    destruct (decide (u = a)) as [<-|Hne].
    + rewrite lookup_insert_eq. eauto.
    + by rewrite lookup_insert_ne.
Qed.

(** X19. The trade log is append-only and in the order submitted: along
    every sequence of transactions, what [get_trades] answered before is a
    prefix of what it answers after, so no trade is ever removed, changed
    or reordered; and every trade logged at an address, from the empty
    storage, names that address as its user and has a pair name that is
    not empty. *)
Theorem bridge_log_append_only :
  (∀ s cs a, AiBridge.logged s a `prefix_of` AiBridge.logged (AiBridge.run s cs) a)
  ∧ (∀ s cs a l,
       AiBridge.get_trades s a = AiBridge.Ok l →
       ∃ k, AiBridge.get_trades (AiBridge.run s cs) a = AiBridge.Ok (l ++ k))
  ∧ (∀ cs a t,
       t ∈ AiBridge.logged (AiBridge.run AiBridge.empty_storage cs) a →
       AiBridge.user t = a ∧ AiBridge.pair t ≠ []).
Proof.
  assert (Hpre : ∀ cs s a,
    AiBridge.logged s a `prefix_of` AiBridge.logged (AiBridge.run s cs) a).
  { induction cs as [|c cs IH]; intros s a; simpl; [done|].
    destruct (AiBridge.exec s c) as [s'|e] eqn:He; simpl; [|apply IH].
    etrans; [|apply IH]. by apply (bridge_exec_logged s c s' a). }
  assert (Hmem : ∀ cs s a,
    (∀ t, t ∈ AiBridge.logged s a →
       AiBridge.user t = a ∧ AiBridge.pair t ≠ []) →
    ∀ t, t ∈ AiBridge.logged (AiBridge.run s cs) a →
      AiBridge.user t = a ∧ AiBridge.pair t ≠ []).
  { induction cs as [|c cs IH]; intros s a Hs; simpl; [done|].
    destruct (AiBridge.exec s c) as [s'|e] eqn:He; simpl; [|by apply IH].
    apply IH. intros t Ht.
    destruct (proj2 (bridge_exec_logged s c s' a He) t Ht)
      as [Hold|(Hu & Hp & _)]; [by apply Hs | done]. }
  split; [intros s cs a; apply Hpre|]. split.
  - intros s cs a l Hget. pose proof (Hpre cs s a) as [k Hk].
    unfold AiBridge.get_trades, AiBridge.logged in *.
    destruct (AiBridge.logs s !! a) as [log|] eqn:Hl; [|done].
    injection Hget as <-.
    destruct (AiBridge.logs (AiBridge.run s cs) !! a) as [log'|] eqn:Hl'.
    + exists k. by rewrite Hk.
    + destruct (bridge_run_log_stays cs s a) as [? Hsome]; [eauto|].
      by rewrite Hsome in Hl'.
  - intros cs a t. apply Hmem. unfold AiBridge.logged. simpl.
    rewrite lookup_empty. intros t' Ht'. by apply elem_of_nil in Ht'.
Qed.

Lemma bridge_log_append_only_witness :
  ∃ k, AiBridge.get_trades
         (AiBridge.run AiBridge.empty_storage
            [AiBridge.Init 1%N 5000 10;
             AiBridge.SubmitAiTrade 1%N [66] true 300 10 0;
             AiBridge.SetParams 1%N 100 50;
             AiBridge.SubmitAiTrade 1%N [69] false 100 50 1]) 1%N
       = AiBridge.Ok
           ([{| AiBridge.user := 1%N; AiBridge.pair := [66];
                AiBridge.side := true; AiBridge.leverage := 300;
                AiBridge.margin := 10; AiBridge.timestamp := 0 |}] ++ k).
Proof.
  destruct bridge_log_append_only as (_ & H & _).
  apply (H (AiBridge.run AiBridge.empty_storage
              [AiBridge.Init 1%N 5000 10;
               AiBridge.SubmitAiTrade 1%N [66] true 300 10 0])
           [AiBridge.SetParams 1%N 100 50;
            AiBridge.SubmitAiTrade 1%N [69] false 100 50 1] 1%N).
  by vm_compute.
Defined.
